(** * phi-anonymizer: the document-to-anonymized-result pipeline

    A shallow embedding of [backend/app/services/llm_service.py],
    [backend/app/services/document_parser.py],
    [backend/app/services/file_handler.py] and [backend/app/api/anonymize.py],
    with the properties their design document states about them and
    further properties read off the code.

    Python values are modelled as follows.
    - [str] is a list of Unicode code points (binary naturals [N]);
    - the regular expressions of [parse_llm_response] are syntax trees, run
      by a backtracking matcher that tries alternatives in the order of
      CPython's [re] engine (left alternative first, greedy loops longest
      first, lazy loops shortest first);
    - a raised exception is the [Err] case of [result];
    - the one network call of a provider is an oracle, and every call made is
      appended to a log, so that "no call was attempted" can be stated. *)

From Stdlib Require Import String Ascii DecimalString.
From Stdlib Require Import List NArith ZArith QArith Bool Lia.
Import ListNotations.
Close Scope Q_scope.

Set Implicit Arguments.

(* ================================================================== *)
(** * Python strings *)
(* ================================================================== *)

Module Py.

Definition char := N.
Definition str := list char.

(** An ASCII literal as a [str]. *)
Definition of_string (s : string) : str :=
  map N_of_ascii (list_ascii_of_string s).

(** The line feed, which the literals above cannot spell. *)
Definition LF : char := 10%N.

Definition between (lo hi c : N) : bool := (N.leb lo c && N.leb c hi)%bool.

(** [str.isspace] on one code point ([Py_UNICODE_ISSPACE]); the same
    predicate is the category [\s] of a [str] pattern. *)
Definition isspace (c : char) : bool :=
  (between 9 13 c || between 28 32 c || N.eqb c 133 || N.eqb c 160
   || N.eqb c 5760 || between 8192 8202 c || N.eqb c 8232 || N.eqb c 8233
   || N.eqb c 8239 || N.eqb c 8287 || N.eqb c 12288)%bool%N.

(** [s.lstrip()], [s.rstrip()] and [s.strip()] with no argument. *)
Fixpoint lstrip (s : str) : str :=
  match s with
  | c :: s' => if isspace c then lstrip s' else s
  | [] => []
  end.

Definition rstrip (s : str) : str := rev (lstrip (rev s)).

Definition strip (s : str) : str := rstrip (lstrip s).

Fixpoint str_eqb (a b : str) : bool :=
  match a, b with
  | [], [] => true
  | x :: a', y :: b' => (N.eqb x y && str_eqb a' b')%bool
  | _, _ => false
  end.

Fixpoint startswith (p s : str) : bool :=
  match p, s with
  | [], _ => true
  | x :: p', y :: s' => (N.eqb x y && startswith p' s')%bool
  | _ :: _, [] => false
  end.

(** [s.replace(old, new)] for a non-empty [old]: occurrences are found
    left to right and do not overlap.  [skip] counts the characters of an
    occurrence that are still to be passed over. *)
Fixpoint replace_from (old new : str) (skip : nat) (s : str) : str :=
  match s with
  | [] => []
  | c :: s' =>
      match skip with
      | S n => replace_from old new n s'
      | O =>
          if startswith old s
          then new ++ replace_from old new (pred (length old)) s'
          else c :: replace_from old new 0 s'
      end
  end.

Definition replace (old new s : str) : str := replace_from old new 0 s.

(** [sep.join(parts)]. *)
Fixpoint join (sep : str) (parts : list str) : str :=
  match parts with
  | [] => []
  | [p] => p
  | p :: rest => p ++ sep ++ join sep rest
  end.

(** [s.rstrip(chars)] for a single character. *)
Fixpoint lstrip_char (x : char) (s : str) : str :=
  match s with
  | c :: s' => if N.eqb c x then lstrip_char x s' else s
  | [] => []
  end.

Definition rstrip_char (x : char) (s : str) : str :=
  rev (lstrip_char x (rev s)).

(** [s.lower()], the Unicode table cut down to the code points whose image
    holds an ASCII letter: the capitals [A-Z], the Kelvin sign [U+212A]
    (to [k]) and [U+0130] (to [i] followed by the combining dot [U+0307]).
    Every other code point is left as it is; its true image holds no ASCII
    character, so no comparison with an ASCII name is changed. *)
Definition lower_char (c : char) : str :=
  if between 65 90 c then [(c + 32)%N]
  else if N.eqb c 8490 then [107%N]
  else if N.eqb c 304 then [105%N; 775%N]
  else [c].

Definition lower (s : str) : str := flat_map lower_char s.

(** [str(n)] for an integer, as an f-string formats it. *)
Definition str_of_Z (z : Z) : str :=
  of_string (NilZero.string_of_int (Z.to_int z)).

Definition str_of_nat (n : nat) : str := str_of_Z (Z.of_nat n).

(** Truthiness of a string: [if s:] holds for a non-empty one. *)
Definition truthy (s : str) : bool :=
  match s with [] => false | _ :: _ => true end.

End Py.

(* ================================================================== *)
(** * The regular expressions of [re], as far as the service uses them *)
(* ================================================================== *)

Module Re.
Import Py.

(** [sre_lower_unicode], the simple lower-case mapping the engine applies to
    a subject character under [re.IGNORECASE].  The Unicode table is cut down
    to the code points whose image is an ASCII letter: the capitals [A-Z],
    [U+0130] (capital I with dot above, to [i]) and [U+212A] (the Kelvin
    sign, to [k]).  Every other code point is left as it is; its true image
    is never an ASCII letter, so no comparison against a pattern of this
    service is changed. *)
Definition sre_lower (c : char) : char :=
  if between 65 90 c then (c + 32)%N
  else if N.eqb c 304 then 105%N
  else if N.eqb c 8490 then 107%N
  else c.

(** A literal of a pattern compiled with [re.IGNORECASE].  The compiler
    lower-cases the literal and adds the other lower-case letters that share
    its upper case: dotless i ([U+0131]) for [i], long s ([U+017F]) for [s]. *)
Definition ci_eq (lit c : char) : bool :=
  let lo := sre_lower lit in
  let lc := sre_lower c in
  (N.eqb lc lo
   || (N.eqb lo 105 && N.eqb lc 305)
   || (N.eqb lo 115 && N.eqb lc 383))%bool%N.

(** What one position of a pattern accepts. *)
Inductive cset : Type :=
| CLit (c : char)          (* a literal character, case ignored *)
| CSpace                   (* \s *)
| CNotSpace                (* \S *)
| CAny                     (* . under re.DOTALL *)
| COr (a b : cset).        (* the union a bracket expression spells *)

Fixpoint cmatch (cs : cset) (c : char) : bool :=
  match cs with
  | CLit l => ci_eq l c
  | CSpace => isspace c
  | CNotSpace => negb (isspace c)
  | CAny => true
  | COr a b => (cmatch a c || cmatch b c)%bool
  end.

Inductive greed : Type := Greedy | Lazy.

(** Every quantifier of the service's patterns stands on a single
    character or bracket expression, so the loop is over a [cset].
    [x+] is [x] followed by [x*], and [x?] is the choice of [x] or nothing:
    both try the same candidates in the same order as the engine. *)
Inductive regex : Type :=
| Eps
| Chr (cs : cset)
| Seq (a b : regex)
| Alt (a b : regex)
| Star (g : greed) (cs : cset)
| Group (n : nat) (a : regex)
| Look (a : regex)         (* (?=a) *)
| EndZ.                    (* \Z *)

Definition Plus (g : greed) (cs : cset) : regex := Seq (Chr cs) (Star g cs).
Definition Opt (cs : cset) : regex := Alt (Chr cs) Eps.

(** A run of literal characters. *)
Definition lit (s : string) : regex :=
  fold_right (fun c r => Seq (Chr (CLit c)) r) Eps (of_string s).

Fixpoint seqs (rs : list regex) : regex :=
  match rs with
  | [] => Eps
  | [r] => r
  | r :: rs' => Seq r (seqs rs')
  end.

(** The groups that took part in a match, the latest binding first. *)
Definition groups := list (nat * str).

Fixpoint lookup (n : nat) (g : groups) : option str :=
  match g with
  | [] => None
  | (m, v) :: g' => if Nat.eqb m n then Some v else lookup n g'
  end.

(** The text between a position [s] and a later position [s'], both given
    as the rest of the subject. *)
Definition consumed (s s' : str) : str :=
  firstn (length s - length s') s.

Section Matcher.
Variable R : Type.

(** [cs*]: as many as possible, giving one back at a time. *)
Fixpoint star_greedy (cs : cset) (k : str -> option R) (s : str) : option R :=
  match s with
  | c :: s' =>
      if cmatch cs c
      then match star_greedy cs k s' with
           | Some r => Some r
           | None => k s
           end
      else k s
  | [] => k []
  end.

(** [cs*?]: as few as possible, taking one more at a time. *)
Fixpoint star_lazy (cs : cset) (k : str -> option R) (s : str) : option R :=
  match k s with
  | Some r => Some r
  | None =>
      match s with
      | c :: s' => if cmatch cs c then star_lazy cs k s' else None
      | [] => None
      end
  end.

End Matcher.

(** The matcher, in continuation-passing style: [rmatch r k s g] matches
    [r] at the head of [s] and hands the rest and the groups to [k]; when
    [k] refuses, the next candidate of [r] is tried. *)
Fixpoint rmatch (r : regex) (R : Type) (k : str -> groups -> option R)
    (s : str) (g : groups) {struct r} : option R :=
  match r with
  | Eps => k s g
  | Chr cs =>
      match s with
      | c :: s' => if cmatch cs c then k s' g else None
      | [] => None
      end
  | Seq a b => rmatch a (fun s' g' => rmatch b k s' g') s g
  | Alt a b =>
      match rmatch a k s g with
      | Some x => Some x
      | None => rmatch b k s g
      end
  | Star Greedy cs => star_greedy cs (fun s' => k s' g) s
  | Star Lazy cs => star_lazy cs (fun s' => k s' g) s
  | Group n a => rmatch a (fun s' g' => k s' ((n, consumed s s') :: g')) s g
  | Look a =>
      match rmatch a (fun _ g' => Some g') s g with
      | Some g' => k s g'
      | None => None
      end
  | EndZ =>
      match s with
      | [] => k [] g
      | _ :: _ => None
      end
  end.

(** A match object: its groups, the text after the match, and the number
    of characters matched. *)
Record Match : Type := mkMatch {
  m_groups : groups;
  m_rest : str;
  m_len : nat
}.

(** [m.group(n)]: [None] when the group took no part in the match. *)
Definition group (m : Match) (n : nat) : option str := lookup n (m_groups m).

(** [pattern.match] at the head of [s]. *)
Definition match_at (r : regex) (s : str) : option Match :=
  rmatch r (fun s' g => Some (mkMatch g s' (length s - length s'))) s [].

(** [re.search]: the first position, from the left, where the pattern
    matches; the end of the subject is a position too. *)
Fixpoint search (r : regex) (s : str) : option Match :=
  match match_at r s with
  | Some m => Some m
  | None =>
      match s with
      | [] => None
      | _ :: s' => search r s'
      end
  end.

(** [re.finditer] for a pattern that matches no empty string: the matches
    from left to right, each search starting where the last match ended.
    [skip] counts the characters of the last match still to be passed. *)
Fixpoint finditer_from (r : regex) (skip : nat) (s : str) : list Match :=
  match skip, s with
  | S n, _ :: s' => finditer_from r n s'
  | S _, [] => []
  | O, [] => match match_at r [] with Some m => [m] | None => [] end
  | O, _ :: s' =>
      match match_at r s with
      | Some m => m :: finditer_from r (pred (m_len m)) s'
      | None => finditer_from r 0 s'
      end
  end.

Definition finditer (r : regex) (s : str) : list Match := finditer_from r 0 s.

(** [re.split] for a pattern without groups that matches no empty string:
    the pieces between the matches.  [piece] is the piece being collected. *)
Fixpoint split_from (r : regex) (skip : nat) (piece : str) (s : str)
  : list str :=
  match skip, s with
  | S n, _ :: s' => split_from r n piece s'
  | S _, [] => [piece]
  | O, [] => [piece]
  | O, c :: s' =>
      match match_at r s with
      | Some m =>
          match m_len m with
          | O => split_from r 0 (piece ++ [c]) s'
          | S n => piece :: split_from r n [] s'
          end
      | None => split_from r 0 (piece ++ [c]) s'
      end
  end.

Definition split (r : regex) (s : str) : list str := split_from r 0 [] s.

(** ** What a pattern can match, without the order of the attempts *)

(** [accepts r s s']: [r] matches a prefix of [s] and leaves [s']. *)
Inductive accepts : regex -> str -> str -> Prop :=
| A_Eps : forall s, accepts Eps s s
| A_Chr : forall cs c s, cmatch cs c = true -> accepts (Chr cs) (c :: s) s
| A_Seq : forall a b s s1 s2,
    accepts a s s1 -> accepts b s1 s2 -> accepts (Seq a b) s s2
| A_AltL : forall a b s s', accepts a s s' -> accepts (Alt a b) s s'
| A_AltR : forall a b s s', accepts b s s' -> accepts (Alt a b) s s'
| A_Star0 : forall g cs s, accepts (Star g cs) s s
| A_StarS : forall g cs c s s',
    cmatch cs c = true -> accepts (Star g cs) s s' ->
    accepts (Star g cs) (c :: s) s'
| A_Group : forall n a s s', accepts a s s' -> accepts (Group n a) s s'
| A_Look : forall a s s', accepts a s s' -> accepts (Look a) s s
| A_EndZ : accepts EndZ [] [].

(** [defines n r]: every match of [r] sets group [n]. *)
Fixpoint defines (n : nat) (r : regex) : bool :=
  match r with
  | Seq a b => (defines n a || defines n b)%bool
  | Alt a b => (defines n a && defines n b)%bool
  | Group m a => (Nat.eqb m n || defines n a)%bool
  | Look a => defines n a
  | Eps | Chr _ | Star _ _ | EndZ => false
  end.

Definition is_set (n : nat) (g : groups) : Prop := lookup n g <> None.

(** [consuming r]: every match of [r] takes at least one character. *)
Fixpoint consuming (r : regex) : bool :=
  match r with
  | Chr _ => true
  | Seq a b => (consuming a || consuming b)%bool
  | Alt a b => (consuming a && consuming b)%bool
  | Group _ a => consuming a
  | Eps | Star _ _ | Look _ | EndZ => false
  end.

End Re.

(* ================================================================== *)
(** * Exceptions *)
(* ================================================================== *)

(** The exceptions the modelled code can raise, under their Python names.
    The design document files the [ValueError] of [get_provider] under
    "ConfigurationError" and the one of [OllamaProvider.anonymize] under
    "ProviderError". *)
Inductive exn : Type :=
| ValueError (msg : Py.str)
| AttributeError            (* a method called on [None] *)
| IndexError                (* an index past the end of a list *)
| JSONDecodeError           (* [response.json()] on a body that is no JSON object *)
| SdkError (msg : Py.str).  (* raised inside a provider's client library *)

Inductive result (A : Type) : Type :=
| Ok (a : A)
| Err (e : exn).

Arguments Ok {A} a.
Arguments Err {A} e.

Definition bind {A B : Type} (x : result A) (f : A -> result B) : result B :=
  match x with
  | Ok a => f a
  | Err e => Err e
  end.

Declare Scope res_scope.
Delimit Scope res_scope with res.
Notation "x <- a ;; b" := (bind a (fun x => b))
  (at level 61, a at next level, right associativity) : res_scope.

(* ================================================================== *)
(** * [models/anonymize.py] *)
(* ================================================================== *)

Module Models.
Import Py.

Record LLMParameters : Type := mkLLMParameters {
  temperature : option Q;
  max_tokens : option Z;
  top_p : option Q;
  context_length : option Z;
  model_name : option str
}.

Record PHIReplacement : Type := mkPHIReplacement {
  category : str;
  original_token : str;
  replacement : str;
  consistency_key : str
}.

Record AnonymizationResult : Type := mkAnonymizationResult {
  replacement_log : list PHIReplacement;
  anonymized_text : str;
  provider_used : str;
  processing_time_seconds : Q;
  original_text : option str
}.

(** The bounds the fields of [LLMParameters] are declared with ([ge] and
    [le]): validation refuses a value that is set and lies outside. *)
Definition between_Q (lo hi : Q) (v : option Q) : bool :=
  match v with
  | Some x => (Qle_bool lo x && Qle_bool x hi)%bool
  | None => true
  end.

Definition between_Z (lo hi : Z) (v : option Z) : bool :=
  match v with
  | Some x => (Z.leb lo x && Z.leb x hi)%bool
  | None => true
  end.

Definition validated (p : LLMParameters) : bool :=
  (between_Q 0 2 (temperature p) && between_Z 100 32000 (max_tokens p)
   && between_Q 0 1 (top_p p) && between_Z 512 128000 (context_length p))%bool.

End Models.

(* ================================================================== *)
(** * [services/llm_service.py]: the response parser *)
(* ================================================================== *)

Module Parser.
Import Py Re Models.
Local Open Scope res_scope.

Definition LFc : cset := CLit LF.

(** [[\s:—–-]]: white space, colon, em dash, en dash, hyphen. *)
Definition header_punct : cset :=
  COr CSpace
    (COr (CLit 58%N) (COr (CLit 8212%N) (COr (CLit 8211%N) (CLit 45%N)))).

(** [[-\s]] *)
Definition dash_or_space : cset := COr (CLit 45%N) CSpace.

(** [[-•]] *)
Definition bullet : cset := COr (CLit 45%N) (CLit 8226%N).

(** [[\s\S]] *)
Definition anything : cset := COr CSpace CNotSpace.

(** [BLOCK\s*2|DE[-\s]*IDENTIFIED\s+DOCUMENT] *)
Definition doc_marker : regex :=
  Alt (seqs [lit "BLOCK"; Star Greedy CSpace; lit "2"])
      (seqs [lit "DE"; Star Greedy dash_or_space; lit "IDENTIFIED";
             Plus Greedy CSpace; lit "DOCUMENT"]).

(** [BLOCK\s*1|PHI\s+REPLACEMENT\s+LOG] *)
Definition log_marker : regex :=
  Alt (seqs [lit "BLOCK"; Star Greedy CSpace; lit "1"])
      (seqs [lit "PHI"; Plus Greedy CSpace; lit "REPLACEMENT";
             Plus Greedy CSpace; lit "LOG"]).

(** [(?:\n\n---|\n\nNote:|\Z)] *)
Definition doc_end : regex :=
  Alt (seqs [Chr LFc; Chr LFc; lit "---"])
      (Alt (seqs [Chr LFc; Chr LFc; lit "Note:"]) EndZ).

(** [doc_pattern], compiled with [re.IGNORECASE]:
    [(?:BLOCK\s*2|DE[-\s]*IDENTIFIED\s+DOCUMENT)[\s:—–-]*\n+([\s\S]+?)(?:\n\n---|\n\nNote:|\Z)] *)
Definition doc_pattern : regex :=
  seqs [doc_marker; Star Greedy header_punct; Plus Greedy LFc;
        Group 1 (Plus Lazy anything); doc_end].

(** The pattern of the fallback [re.split]:
    [(?:BLOCK\s*2|DE[-\s]*IDENTIFIED\s+DOCUMENT)[\s:—–-]*\n+] *)
Definition split_pattern : regex :=
  seqs [doc_marker; Star Greedy header_punct; Plus Greedy LFc].

(** [log_pattern], compiled with [re.IGNORECASE]:
    [(?:BLOCK\s*1|PHI\s+REPLACEMENT\s+LOG)[\s:—–-]*\n+([\s\S]*?)(?=BLOCK\s*2|DE[-\s]*IDENTIFIED\s+DOCUMENT)] *)
Definition log_pattern : regex :=
  seqs [log_marker; Star Greedy header_punct; Plus Greedy LFc;
        Group 1 (Star Lazy anything); Look doc_marker].

(** [(?=\s*[-•]?\s*Category:|\Z)] *)
Definition entry_end : regex :=
  Look (Alt (seqs [Star Greedy CSpace; Opt bullet; Star Greedy CSpace;
                   lit "Category:"])
            EndZ).

(** [entry_pattern], compiled with [re.DOTALL | re.IGNORECASE]:
    [[-•]?\s*Category:\s*(.+?)\s+Original\s+token:\s*(.+?)\s+Replacement:\s*(.+?)\s+Consistency\s+key:\s*(.+?)(?=\s*[-•]?\s*Category:|\Z)] *)
Definition entry_pattern : regex :=
  seqs [Opt bullet; Star Greedy CSpace; lit "Category:"; Star Greedy CSpace;
        Group 1 (Plus Lazy CAny);
        Plus Greedy CSpace; lit "Original"; Plus Greedy CSpace; lit "token:";
        Star Greedy CSpace;
        Group 2 (Plus Lazy CAny);
        Plus Greedy CSpace; lit "Replacement:"; Star Greedy CSpace;
        Group 3 (Plus Lazy CAny);
        Plus Greedy CSpace; lit "Consistency"; Plus Greedy CSpace; lit "key:";
        Star Greedy CSpace;
        Group 4 (Plus Lazy CAny);
        entry_end].

(** [m.group(n).strip()]: [group] gives [None] for a group that took no
    part, and [None] has no [strip]. *)
Definition group_strip (m : Match) (n : nat) : result str :=
  match group m n with
  | Some t => Ok (strip t)
  | None => Err AttributeError
  end.

(** The body of the [for match in re.finditer(...)] loop, over the
    matches in order; [log] is [replacement_log] so far. *)
Fixpoint collect_entries (ms : list Match) (log : list PHIReplacement)
  : result (list PHIReplacement) :=
  match ms with
  | [] => Ok log
  | m :: ms' =>
      c <- group_strip m 1 ;;
      o <- group_strip m 2 ;;
      r <- group_strip m 3 ;;
      k <- group_strip m 4 ;;
      collect_entries ms' (log ++ [mkPHIReplacement c o r k])
  end.

Definition star : str := of_string "*".
Definition star2 : str := of_string "**".

(** [response.replace('**', '').replace('*', '')] *)
Definition clean (response : str) : str :=
  replace star [] (replace star2 [] response).

Definition parse_llm_response (response : str)
  : result (list PHIReplacement * str) :=
  let clean_response := clean response in
  let doc_match := search doc_pattern clean_response in
  anonymized_text <-
    match doc_match with
    | Some m => group_strip m 1
    | None =>
        let parts := split split_pattern clean_response in
        if Nat.ltb 1 (length parts)
        then Ok (strip (last parts []))
        else Ok response
    end ;;
  let log_match := search log_pattern clean_response in
  replacement_log <-
    match log_match with
    | Some m =>
        match group m 1 with
        | Some log_text => collect_entries (finditer entry_pattern log_text) []
        | None => Err AttributeError  (* [finditer] on [None]: a TypeError *)
        end
    | None => Ok []
    end ;;
  Ok (replacement_log, anonymized_text).

End Parser.


(* ================================================================== *)
(** * [core/config.py] *)
(* ================================================================== *)

Module Config.
Import Py.

(** The fields of [Settings] the two services read.  The values come from
    the environment, so the object is a parameter of what follows. *)
Record Settings : Type := mkSettings {
  ANTHROPIC_API_KEY : str;
  OPENAI_API_KEY : str;
  OLLAMA_BASE_URL : str;
  OLLAMA_MODEL : str;
  DEFAULT_TEMPERATURE : Q;
  DEFAULT_MAX_TOKENS : Z;
  DEFAULT_TOP_P : Q;
  DEFAULT_CONTEXT_LENGTH : Z
}.

End Config.

(* ================================================================== *)
(** * [services/llm_service.py]: providers and the orchestrator *)
(* ================================================================== *)

Module Service.
Import Py Models Config.

(** ** The outside world *)

(** A chat request to a hosted API ([messages.create],
    [chat.completions.create]). *)
Record chat_request : Type := mkChat {
  chat_api_key : str;
  chat_model : str;
  chat_max_tokens : Z;
  chat_temperature : Q;
  chat_top_p : Q;
  chat_system : str;
  chat_user : str
}.

Inductive number : Type :=
| Float (q : Q)
| Int (z : Z).

(** The POST to [<base_url>/api/generate] with its JSON body. *)
Record generate_request : Type := mkGenerate {
  gen_url : str;
  gen_model : str;
  gen_prompt : str;
  gen_stream : bool;
  gen_options : list (str * number)
}.

(** What [httpx] hands back: the status, the body as text, and the body
    decoded by [response.json()], [None] when it is no JSON object (the
    call raises then); a decoded object is the list of its string members. *)
Record http_response : Type := mkHttp {
  status_code : Z;
  text : str;
  json : option (list (str * str))
}.

Inductive call : Type :=
| AnthropicCreate (r : chat_request)
| OpenAICreate (r : chat_request)
| HttpPost (r : generate_request).

(** The answers of the outside world: the text of each content block of a
    message, the message content of each completion choice, the HTTP
    response, each of them or the exception the client raised; and the
    wall clock, by the number of earlier readings. *)
Record World : Type := mkWorld {
  anthropic_create : chat_request -> result (list str);
  openai_create : chat_request -> result (list str);
  http_post : generate_request -> result http_response;
  clock : nat -> Q
}.

(** What a run has done so far: the network calls, in order, and the
    number of clock readings. *)
Record state : Type := mkState {
  calls : list call;
  readings : nat
}.

(** Effectful code: a state transformer that may raise. *)
Definition M (A : Type) : Type := state -> result A * state.

Definition ret {A : Type} (a : A) : M A := fun st => (Ok a, st).

Definition raise {A : Type} (e : exn) : M A := fun st => (Err e, st).

Definition mbind {A B : Type} (m : M A) (f : A -> M B) : M B :=
  fun st =>
    match m st with
    | (Ok a, st') => f a st'
    | (Err e, st') => (Err e, st')
    end.

Definition lift {A : Type} (r : result A) : M A := fun st => (r, st).

Declare Scope m_scope.
Delimit Scope m_scope with M.
Notation "x <- a ;; b" := (mbind a (fun x => b))
  (at level 61, a at next level, right associativity) : m_scope.
Notation "' ( x , y ) <- a ;; b" := (mbind a (fun p => let '(x, y) := p in b))
  (at level 61, x name, y name, a at next level, right associativity) : m_scope.

Section WithSettings.
Variable PHI_ANONYMIZATION_PROMPT : str.
Variable settings : Settings.
Variable world : World.

(** A network call: logged, then answered by the world. *)
Definition perform {A : Type} (c : call) (answer : result A) : M A :=
  fun st => (answer, mkState (calls st ++ [c]) (readings st)).

(** [time.time()] *)
Definition time_time : M Q :=
  fun st => (Ok (clock world (readings st)),
             mkState (calls st) (S (readings st))).

(** ** The providers *)

Inductive LLMProvider : Type :=
| AnthropicProvider (api_key model : str)
| OpenAIProvider (api_key model : str)
| OllamaProvider (base_url model_name : str).

(** The three [__init__] methods. *)
Definition new_AnthropicProvider (api_key : str) : LLMProvider :=
  AnthropicProvider api_key (of_string "claude-3-5-sonnet-20241022").

Definition new_OpenAIProvider (api_key : str) : LLMProvider :=
  OpenAIProvider api_key (of_string "gpt-4-turbo-preview").

Definition new_OllamaProvider (base_url model_name : str) : LLMProvider :=
  OllamaProvider (rstrip_char 47%N base_url) model_name.

(** [params.f if params and params.f else default]: an unset field, zero
    and the empty string are all falsy. *)
Definition or_default_Z (params : option LLMParameters)
    (f : LLMParameters -> option Z) (default : Z) : Z :=
  match params with
  | Some p =>
      match f p with
      | Some v => if Z.eqb v 0 then default else v
      | None => default
      end
  | None => default
  end.

Definition or_default_str (params : option LLMParameters)
    (f : LLMParameters -> option str) (default : str) : str :=
  match params with
  | Some p =>
      match f p with
      | Some v => if truthy v then v else default
      | None => default
      end
  | None => default
  end.

(** [params.f if params and params.f is not None else default] *)
Definition or_default_Q (params : option LLMParameters)
    (f : LLMParameters -> option Q) (default : Q) : Q :=
  match params with
  | Some p =>
      match f p with
      | Some v => v
      | None => default
      end
  | None => default
  end.

(** [f"<<<BEGIN DOCUMENT>>>\n{text}\n<<<END DOCUMENT>>>"] *)
Definition wrap_document (text : str) : str :=
  of_string "<<<BEGIN DOCUMENT>>>" ++ [LF] ++ text ++ [LF]
  ++ of_string "<<<END DOCUMENT>>>".

Definition chat_request_of (api_key default_model : str) (text : str)
    (params : option LLMParameters) : chat_request :=
  mkChat api_key
    (or_default_str params model_name default_model)
    (or_default_Z params max_tokens (DEFAULT_MAX_TOKENS settings))
    (or_default_Q params temperature (DEFAULT_TEMPERATURE settings))
    (or_default_Q params top_p (DEFAULT_TOP_P settings))
    PHI_ANONYMIZATION_PROMPT
    (wrap_document text).

(** [xs[0]] *)
Definition first_of (xs : list str) : result str :=
  match xs with
  | x :: _ => Ok x
  | [] => Err IndexError
  end.

Local Open Scope m_scope.

Definition AnthropicProvider_anonymize (api_key model : str) (text : str)
    (params : option LLMParameters) : M (str * str) :=
  let req := chat_request_of api_key model text params in
  content <- perform (AnthropicCreate req) (anthropic_create world req) ;;
  response_text <- lift (first_of content) ;;
  ret (response_text, of_string "anthropic").

Definition OpenAIProvider_anonymize (api_key model : str) (text : str)
    (params : option LLMParameters) : M (str * str) :=
  let req := chat_request_of api_key model text params in
  choices <- perform (OpenAICreate req) (openai_create world req) ;;
  response_text <- lift (first_of choices) ;;
  ret (response_text, of_string "openai").

(** The [options] of the Ollama request: [num_ctx] is added from the
    parameters, else from the settings, when the value is not zero. *)
Definition ollama_options (params : option LLMParameters)
  : list (str * number) :=
  let temperature := or_default_Q params temperature (DEFAULT_TEMPERATURE settings) in
  let top_p := or_default_Q params top_p (DEFAULT_TOP_P settings) in
  let options := [(of_string "temperature", Float temperature);
                  (of_string "top_p", Float top_p)] in
  let from_params :=
    match params with
    | Some p =>
        match context_length p with
        | Some v => if Z.eqb v 0 then None else Some v
        | None => None
        end
    | None => None
    end in
  match from_params with
  | Some v => options ++ [(of_string "num_ctx", Int v)]
  | None =>
      if Z.eqb (DEFAULT_CONTEXT_LENGTH settings) 0 then options
      else options ++ [(of_string "num_ctx", Int (DEFAULT_CONTEXT_LENGTH settings))]
  end.

(** [result.get("response", "")] *)
Fixpoint dict_get (key : str) (d : list (str * str)) (default : str) : str :=
  match d with
  | [] => default
  | (k, v) :: d' => if str_eqb k key then v else dict_get key d' default
  end.

Definition ollama_request (base_url model_name : str) (text : str)
    (params : option LLMParameters) : generate_request :=
  mkGenerate
    (base_url ++ of_string "/api/generate")
    (or_default_str params Models.model_name model_name)
    (PHI_ANONYMIZATION_PROMPT ++ [LF; LF] ++ wrap_document text)
    false
    (ollama_options params).

(** [f"Ollama API error: {response.status_code} - {response.text}"] *)
Definition ollama_error (response : http_response) : str :=
  of_string "Ollama API error: " ++ str_of_Z (status_code response)
  ++ of_string " - " ++ text response.

Definition OllamaProvider_anonymize (base_url model_name : str) (text : str)
    (params : option LLMParameters) : M (str * str) :=
  let req := ollama_request base_url model_name text params in
  response <- perform (HttpPost req) (http_post world req) ;;
  if negb (Z.eqb (status_code response) 200)
  then raise (ValueError (ollama_error response))
  else
    match json response with
    | None => raise JSONDecodeError
    | Some result =>
        let response_text := dict_get (of_string "response") result [] in
        ret (response_text, of_string "ollama")
    end.

(** [provider.anonymize(text, params)], by the class of [provider]. *)
Definition anonymize (provider : LLMProvider) (text : str)
    (params : option LLMParameters) : M (str * str) :=
  match provider with
  | AnthropicProvider api_key model =>
      AnthropicProvider_anonymize api_key model text params
  | OpenAIProvider api_key model =>
      OpenAIProvider_anonymize api_key model text params
  | OllamaProvider base_url model_name =>
      OllamaProvider_anonymize base_url model_name text params
  end.

(** ** Selection *)

Definition get_provider (provider_name : str) : result LLMProvider :=
  let provider_name := lower provider_name in
  if str_eqb provider_name (of_string "anthropic") then
    if negb (truthy (ANTHROPIC_API_KEY settings))
    then Err (ValueError (of_string "Anthropic API key not configured"))
    else Ok (new_AnthropicProvider (ANTHROPIC_API_KEY settings))
  else if str_eqb provider_name (of_string "openai") then
    if negb (truthy (OPENAI_API_KEY settings))
    then Err (ValueError (of_string "OpenAI API key not configured"))
    else Ok (new_OpenAIProvider (OPENAI_API_KEY settings))
  else if (str_eqb provider_name (of_string "ollama")
           || str_eqb provider_name (of_string "local"))%bool then
    Ok (new_OllamaProvider (OLLAMA_BASE_URL settings) (OLLAMA_MODEL settings))
  else Err (ValueError (of_string "Invalid provider: " ++ provider_name)).

(** ** The orchestrator *)

Definition anonymize_text (text : str) (provider_name : str)
    (params : option LLMParameters) : M AnonymizationResult :=
  start_time <- time_time ;;
  provider <- lift (get_provider provider_name) ;;
  '(raw_response, used_provider) <- anonymize provider text params ;;
  '(replacement_log, anonymized_text) <-
     lift (Parser.parse_llm_response raw_response) ;;
  end_time <- time_time ;;
  let processing_time := Qminus end_time start_time in
  ret (mkAnonymizationResult replacement_log anonymized_text used_provider
         processing_time (Some text)).

End WithSettings.

End Service.

(* ================================================================== *)
(** * [services/document_parser.py] *)
(* ================================================================== *)

Module DocumentParser.
Import Py.

(** A [.docx] document as [python-docx] shows it: the text of each
    paragraph of the body, in document order, and the tables of the body,
    each the list of its rows, a row the text of each of its cells. *)
Record Document : Type := mkDocument {
  paragraphs : list str;
  tables : list (list (list str))
}.

(** The two loops of [parse_word] add to [text_parts]. *)
Definition add_paragraph (text_parts : list str) (paragraph : str) : list str :=
  if truthy (strip paragraph) then text_parts ++ [paragraph] else text_parts.

Definition add_row (text_parts : list str) (row : list str) : list str :=
  let row_text := join (of_string " | ") (map strip row) in
  if truthy (strip row_text) then text_parts ++ [row_text] else text_parts.

Definition parse_word (doc : Document) : str :=
  let text_parts := fold_left add_paragraph (paragraphs doc) [] in
  let text_parts :=
    fold_left (fun parts table => fold_left add_row table parts)
      (tables doc) text_parts in
  join [LF] text_parts.

(** A page of a PDF: the text [page.get_text()] extracts from it, and the
    text [pytesseract.image_to_string] reads from its 300 dpi image. *)
Record Page : Type := mkPage {
  get_text : str;
  image_to_string : str
}.

Definition Pdf : Type := list Page.

(** The loop of [detect_needs_ocr] over [range(pages_to_check)]. *)
Definition add_page_length (doc : Pdf) (total_text_length : nat)
    (page_num : nat) : nat :=
  match nth_error doc page_num with
  | Some page => total_text_length + length (strip (get_text page))
  | None => total_text_length
  end.

Definition total_text_length (doc : Pdf) (pages_to_check : nat) : nat :=
  fold_left (add_page_length doc) (seq 0 pages_to_check) 0.

(** [total_text_length / pages_to_check if pages_to_check > 0 else 0].
    The quotient is taken exactly; the comparison of the floating-point
    quotient with 100 has the same outcome, the divisor being at most 3. *)
Definition avg_text_per_page (doc : Pdf) : Q :=
  let pages_to_check := Nat.min 3 (length doc) in
  if Nat.ltb 0 pages_to_check
  then Qmake (Z.of_nat (total_text_length doc pages_to_check))
             (Pos.of_nat pages_to_check)
  else 0%Q.

Definition Qlt_bool (a b : Q) : bool := negb (Qle_bool b a).

Definition detect_needs_ocr (doc : Pdf) : bool :=
  Qlt_bool (avg_text_per_page doc) 100%Q.

(** [f"--- Page {n} ---"] *)
Definition page_label (n : nat) : str :=
  of_string "--- Page " ++ str_of_nat n ++ of_string " ---".

(** The loops of [parse_pdf_text] and [parse_pdf_ocr]: a page with some
    text that is not white space adds its label and its stripped text. *)
Fixpoint page_blocks (read : Page -> str) (doc : Pdf) (page_num : nat)
  : list str :=
  match doc with
  | [] => []
  | page :: rest =>
      let text := read page in
      (if truthy (strip text)
       then [page_label (page_num + 1); strip text]
       else [])
      ++ page_blocks read rest (S page_num)
  end.

Definition parse_pdf_text (doc : Pdf) : str :=
  join [LF; LF] (page_blocks get_text doc 0).

Definition parse_pdf_ocr (doc : Pdf) : str :=
  join [LF; LF] (page_blocks image_to_string doc 0).

(** [parse_pdf(file_path, force_ocr)]: the text and whether OCR was used. *)
Definition parse_pdf (doc : Pdf) (force_ocr : bool) : str * bool :=
  let needs_ocr := (force_ocr || detect_needs_ocr doc)%bool in
  if needs_ocr
  then (parse_pdf_ocr doc, true)
  else (parse_pdf_text doc, false).

(** What the libraries make of the file at [file_path]: the document
    [docx.Document(file_path)] builds, and the pages that [fitz.open] and
    the OCR chain read; each of them, or the exception raised on a file the
    library cannot open. *)
Record File : Type := mkFile {
  as_docx : result Document;
  as_pdf : result Pdf
}.

Local Open Scope res_scope.

(** [parse_document(file_path, file_extension)]; [parse_pdf] is called
    without [force_ocr], which is [False] by default. *)
Definition parse_document (file : File) (file_extension : str)
  : result (str * bool) :=
  let file_extension := lower file_extension in
  if str_eqb file_extension (of_string ".docx") then
    doc <- as_docx file ;;
    Ok (parse_word doc, false)
  else if str_eqb file_extension (of_string ".pdf") then
    doc <- as_pdf file ;;
    Ok (parse_pdf doc false)
  else
    Err (ValueError (of_string "Unsupported file type: " ++ file_extension)).

End DocumentParser.

(* ================================================================== *)
(** * [services/file_handler.py] *)
(* ================================================================== *)

(** The upload path works on a dictionary in memory and on files in a
    temporary directory.  The model runs one request at a time (what
    concurrent requests do between two [await]s is not modelled), on a
    disk that nothing else writes.  A disk operation can fail: the host
    decides which ones do. *)

Module FileHandler.
Import Py Models Config Service DocumentParser.

(** ** Settings, exceptions and the state of the server *)

(** The fields of [Settings] the upload path reads. *)
Record UploadSettings : Type := mkUploadSettings {
  MAX_FILE_SIZE : Z;
  TEMP_FILE_TTL : Z;
  TEMP_DIR : str;
  ALLOWED_FILE_TYPES : list str
}.

Record TempFile : Type := mkTempFile {
  file_id : str;
  original_filename : str;
  file_path : str;
  file_extension : str;
  created_at : Q
}.

(** What the upload path can raise: FastAPI's [HTTPException], an
    exception of the services, the [OSError] of a disk operation, and the
    [TypeError] of a call with arguments of the wrong kind. *)
Inductive raised : Type :=
| HTTPException (status_code : Z) (detail : str)
| Exception (e : exn)
| OSError (msg : str)
| TypeError (msg : str).

(** [LLMParameters( **json.loads(parameters))]: the parameters; or the
    text of the [json.JSONDecodeError] or of the [ValidationError], both
    of them [ValueError]s; or the text of the [TypeError] raised when the
    JSON value is no object. *)
Inductive loaded : Type :=
| Loaded (params : LLMParameters)
| Invalid (msg : str)
| NotAnObject (msg : str).

Inductive outcome (A : Type) : Type :=
| Returned (a : A)
| Raised (e : raised).

Arguments Returned {A} a.
Arguments Raised {A} e.

(** The state of the server process and of its disk: the state of the
    services, the dictionary [_temp_files] in insertion order, the regular
    files by path, and the numbers of identifiers drawn and of disk
    operations made so far. *)
Record server : Type := mkServer {
  service : state;
  temp_files : list (str * TempFile);
  disk : list (str * list Byte.byte);
  draws : nat;
  ops : nat
}.

(** What the process cannot decide: the identifiers [uuid.uuid4()] draws,
    one after the other; which disk operations fail, by their number, and
    with what message; [Path(name).suffix] and [str(Path(dir) / name)];
    [str.isalnum] beyond ASCII; [f"{x:.1f}"]; what [python-docx] and
    [PyMuPDF] with the OCR chain make of the content of a file ([None]
    when there is no file); what [json.loads] and the validation of
    [LLMParameters] make of the [parameters] field; and the text of an
    exception that carries none in the model. *)
Record Host : Type := mkHost {
  uuid : nat -> str;
  os_error : nat -> option str;
  path_suffix : str -> str;
  path_join : str -> str -> str;
  unicode_isalnum : char -> bool;
  format_1f : Q -> str;
  open_docx : option (list Byte.byte) -> result Document;
  open_pdf : option (list Byte.byte) -> result Pdf;
  load_parameters : str -> loaded;
  describe : exn -> str
}.

Definition IO (A : Type) : Type := server -> outcome A * server.

Definition pure {A : Type} (a : A) : IO A := fun sv => (Returned a, sv).

Definition throw {A : Type} (e : raised) : IO A := fun sv => (Raised e, sv).

Definition iobind {A B : Type} (m : IO A) (f : A -> IO B) : IO B :=
  fun sv =>
    match m sv with
    | (Returned a, sv') => f a sv'
    | (Raised e, sv') => (Raised e, sv')
    end.

Definition of_outcome {A : Type} (o : outcome A) : IO A := fun sv => (o, sv).

Declare Scope io_scope.
Delimit Scope io_scope with IO.
Notation "x <- a ;; b" := (iobind a (fun x => b))
  (at level 61, a at next level, right associativity) : io_scope.
Notation "a ;; b" := (iobind a (fun _ => b))
  (at level 61, right associativity) : io_scope.

(** A computation of the services, run on the services' part of the
    state. *)
Definition lift_service {A : Type} (m : M A) : IO A :=
  fun sv =>
    let (r, st') := m (service sv) in
    let sv' := mkServer st' (temp_files sv) (disk sv) (draws sv) (ops sv) in
    match r with
    | Ok a => (Returned a, sv')
    | Err e => (Raised (Exception e), sv')
    end.

(** ** Dictionaries and the disk *)

Section Dict.
Variable V : Type.

(** [d.get(key)] *)
Fixpoint dict_lookup (key : str) (d : list (str * V)) : option V :=
  match d with
  | [] => None
  | (k, v) :: d' => if str_eqb k key then Some v else dict_lookup key d'
  end.

(** [d[key] = value]: a key that is present keeps its place. *)
Fixpoint dict_store (key : str) (value : V) (d : list (str * V))
  : list (str * V) :=
  match d with
  | [] => [(key, value)]
  | (k, v) :: d' =>
      if str_eqb k key then (key, value) :: d'
      else (k, v) :: dict_store key value d'
  end.

(** What [d.pop(key, None)] leaves. *)
Definition dict_pop (key : str) (d : list (str * V)) : list (str * V) :=
  filter (fun kv => negb (str_eqb (fst kv) key)) d.

End Dict.

Section WithHost.
Variable world : World.
Variable upload_settings : UploadSettings.
Variable host : Host.

Local Open Scope io_scope.

(** [time.time()], on the clock of the services. *)
Definition time_time : IO Q := lift_service (Service.time_time world).

(** [str(uuid.uuid4())] *)
Definition uuid4 : IO str :=
  fun sv =>
    (Returned (uuid host (draws sv)),
     mkServer (service sv) (temp_files sv) (disk sv) (S (draws sv)) (ops sv)).

(** A disk operation: it is counted, and fails when the host says so. *)
Definition disk_op : IO unit :=
  fun sv =>
    let sv' := mkServer (service sv) (temp_files sv) (disk sv) (draws sv)
                 (S (ops sv)) in
    match os_error host (ops sv) with
    | Some msg => (Raised (OSError msg), sv')
    | None => (Returned tt, sv')
    end.

Definition update_disk (f : list (str * list Byte.byte)
                            -> list (str * list Byte.byte)) : IO unit :=
  fun sv =>
    (Returned tt,
     mkServer (service sv) (temp_files sv) (f (disk sv)) (draws sv) (ops sv)).

Definition update_temp_files (f : list (str * TempFile)
                                  -> list (str * TempFile)) : IO unit :=
  fun sv =>
    (Returned tt,
     mkServer (service sv) (f (temp_files sv)) (disk sv) (draws sv) (ops sv)).

(** [os.path.exists(path)] *)
Definition path_exists (path : str) (sv : server) : bool :=
  match dict_lookup path (disk sv) with Some _ => true | None => false end.

(** [os.unlink(path)] *)
Definition unlink (path : str) : IO unit :=
  disk_op ;; update_disk (dict_pop path).

(** [open(path, 'wb')]: the file is created, or emptied. *)
Definition open_wb (path : str) : IO unit :=
  disk_op ;; update_disk (dict_store path []).

(** [f.close()] *)
Definition close : IO unit := disk_op.

(** [f.write(chunk)] inside the [async with] block: when the write fails
    the block closes the file on its way out, and the failure of that
    takes the place of the first. *)
Definition write (path : str) (chunk : list Byte.byte) : IO unit :=
  fun sv =>
    match disk_op sv with
    | (Returned _, sv') =>
        update_disk
          (fun d => match dict_lookup path d with
                    | Some old => dict_store path (old ++ chunk) d
                    | None => dict_store path chunk d
                    end) sv'
    | (Raised e, sv') =>
        match close sv' with
        | (Returned _, sv'') => (Raised e, sv'')
        | (Raised e', sv'') => (Raised e', sv'')
        end
    end.

(** ** The functions of the module *)

(** [ensure_temp_dir()]; the directory is not part of the model of the
    disk, which holds regular files only. *)
Definition ensure_temp_dir : IO str :=
  disk_op ;; pure (TEMP_DIR upload_settings).

(** The text of [s] before its first [x]. *)
Fixpoint upto (x : char) (s : str) : str :=
  match s with
  | [] => []
  | c :: s' => if N.eqb c x then [] else c :: upto x s'
  end.

(** [os.path.basename(p)]: what follows the last slash. *)
Definition basename (p : str) : str := rev (upto 47%N (rev p)).

(** [c.isalnum()]: the digits and letters of ASCII; beyond ASCII the host
    knows. *)
Definition isalnum (c : char) : bool :=
  if N.ltb c 128
  then (between 48 57 c || between 65 90 c || between 97 122 c)%bool
  else unicode_isalnum host c.

Definition sanitize_filename (filename : str) : str :=
  let filename := basename filename in
  let filename :=
    filter (fun c => (isalnum c || existsb (N.eqb c) (of_string "._- "))%bool)
      filename in
  firstn 255 filename.

(** [validate_file_type(filename)].  [lower] is exact on a suffix that is
    compared with ASCII entries, as [".docx"] and [".pdf"] are. *)
Definition validate_file_type (filename : str) : outcome str :=
  let file_extension := lower (path_suffix host filename) in
  if negb (existsb (str_eqb file_extension)
             (ALLOWED_FILE_TYPES upload_settings))
  then Raised (HTTPException 400
                 (of_string "File type not allowed. Allowed types: "
                  ++ join (of_string ", ")
                       (ALLOWED_FILE_TYPES upload_settings)))
  else Returned file_extension.

(** An uploaded file: its name and its content. *)
Record UploadFile : Type := mkUploadFile {
  filename : str;
  content : list Byte.byte
}.

(** The chunks [file.read(8192)] returns one after the other, up to the
    empty one that ends the loop; [fuel] bounds their number. *)
Fixpoint chunks (fuel : nat) (size : nat) (content : list Byte.byte)
  : list (list Byte.byte) :=
  match fuel, content with
  | S fuel', _ :: _ =>
      firstn size content :: chunks fuel' size (skipn size content)
  | _, _ => []
  end.

Definition read_chunks (file : UploadFile) : list (list Byte.byte) :=
  chunks (length (content file)) (N.to_nat 8192) (content file).

(** [f"File too large. Maximum size: {settings.MAX_FILE_SIZE / (1024 * 1024):.1f}MB"] *)
Definition too_large : raised :=
  HTTPException 413
    (of_string "File too large. Maximum size: "
     ++ format_1f host (MAX_FILE_SIZE upload_settings # 1048576)
     ++ of_string "MB").

(** The [while] loop of [save_temp_file], over the chunks still to come. *)
Fixpoint write_chunks (file_path : str) (todo : list (list Byte.byte))
    (total_size : nat) : IO unit :=
  match todo with
  | [] => pure tt
  | chunk :: todo' =>
      let total_size := total_size + length chunk in
      if Z.ltb (MAX_FILE_SIZE upload_settings) (Z.of_nat total_size)
      then close ;; unlink file_path ;; throw too_large
      else write file_path chunk ;; write_chunks file_path todo' total_size
  end.

Definition save_temp_file (file : UploadFile) : IO TempFile :=
  file_extension <- of_outcome (validate_file_type (filename file)) ;;
  file_id <- uuid4 ;;
  let safe_filename := sanitize_filename (filename file) in
  temp_dir <- ensure_temp_dir ;;
  let file_path := path_join host temp_dir (file_id ++ file_extension) in
  open_wb file_path ;;
  write_chunks file_path (read_chunks file) 0 ;;
  close ;;
  created_at <- time_time ;;
  let temp_file :=
    mkTempFile file_id safe_filename file_path file_extension created_at in
  update_temp_files (dict_store file_id temp_file) ;;
  pure temp_file.

(** [cleanup_file(file_id)]; the message printed when the deletion fails
    is not modelled. *)
Definition cleanup_file (file_id : str) : IO bool :=
  fun sv =>
    match dict_lookup file_id (temp_files sv) with
    | None => (Returned false, sv)
    | Some temp_file =>
        let sv1 := mkServer (service sv) (dict_pop file_id (temp_files sv))
                     (disk sv) (draws sv) (ops sv) in
        if path_exists (file_path temp_file) sv1
        then match unlink (file_path temp_file) sv1 with
             | (Returned _, sv2) => (Returned true, sv2)
             | (Raised _, sv2) => (Returned false, sv2)
             end
        else (Returned false, sv1)
    end.

(** The second loop of [cleanup_old_files]. *)
Fixpoint cleanup_files (expired_files : list str) : IO unit :=
  match expired_files with
  | [] => pure tt
  | file_id :: rest => cleanup_file file_id ;; cleanup_files rest
  end.

(** [age > settings.TEMP_FILE_TTL], the age being the difference of two
    readings of the clock, taken exactly. *)
Definition expired (current_time : Q) (temp_file : TempFile) : bool :=
  Qlt_bool (inject_Z (TEMP_FILE_TTL upload_settings))
           (Qminus current_time (created_at temp_file)).

(** [cleanup_old_files()]; the count it prints is not modelled. *)
Definition cleanup_old_files : IO unit :=
  current_time <- time_time ;;
  fun sv =>
    let expired_files :=
      map fst (filter (fun kv => expired current_time (snd kv))
                 (temp_files sv)) in
    cleanup_files expired_files sv.

Definition get_temp_file (file_id : str) (sv : server) : option TempFile :=
  dict_lookup file_id (temp_files sv).

End WithHost.

End FileHandler.

(* ================================================================== *)
(** * [api/anonymize.py] *)
(* ================================================================== *)

Module Api.
Import Py Models Config Service DocumentParser FileHandler.

Record AnonymizeTextRequest : Type := mkAnonymizeTextRequest {
  text : str;
  provider : str;
  parameters : option LLMParameters
}.

Record ProviderInfo : Type := mkProviderInfo {
  name : str;
  configured : bool;
  available : bool
}.

Record FileUploadResponse : Type := mkFileUploadResponse {
  filename : str;
  file_type : str;
  used_ocr : bool;
  result : AnonymizationResult
}.

(** [isinstance(e, ValueError)]: [json.JSONDecodeError] is a subclass of
    [ValueError]; an [SdkError] stands for an exception of a client
    library that is none. *)
Definition is_ValueError (e : exn) : bool :=
  match e with
  | ValueError _ | JSONDecodeError => true
  | AttributeError | IndexError | SdkError _ => false
  end.

Section WithHost.
Variable PHI_ANONYMIZATION_PROMPT : str.
Variable settings : Settings.
Variable world : World.
Variable upload_settings : UploadSettings.
Variable host : Host.

Local Open Scope io_scope.

(** [str(e)] *)
Definition str_of_exn (e : exn) : str :=
  match e with
  | ValueError msg | SdkError msg => msg
  | IndexError => of_string "list index out of range"
  | AttributeError | JSONDecodeError => describe host e
  end.

(** [POST /anonymize/text] *)
Definition anonymize_text (request : AnonymizeTextRequest)
  : IO AnonymizationResult :=
  fun sv =>
    let (r, st') :=
      Service.anonymize_text PHI_ANONYMIZATION_PROMPT settings world
        (text request) (provider request) (parameters request) (service sv) in
    let sv' := mkServer st' (temp_files sv) (disk sv) (draws sv) (ops sv) in
    match r with
    | Ok result => (Returned result, sv')
    | Err e =>
        if is_ValueError e
        then (Raised (HTTPException 400 (str_of_exn e)), sv')
        else (Raised (HTTPException 500
                        (of_string "Anonymization failed: " ++ str_of_exn e)),
              sv')
    end.

(** The [except] clauses of [anonymize_upload]. *)
Definition handled (e : raised) : raised :=
  match e with
  | HTTPException _ _ => e
  | Exception x =>
      if is_ValueError x
      then HTTPException 400 (str_of_exn x)
      else HTTPException 500
             (of_string "File processing failed: " ++ str_of_exn x)
  | OSError msg | TypeError msg =>
      HTTPException 500 (of_string "File processing failed: " ++ msg)
  end.

(** The parsing of the [parameters] form field. *)
Definition parse_parameters (parameters : option str)
  : outcome (option LLMParameters) :=
  match parameters with
  | None => Returned None
  | Some p =>
      if truthy p
      then match load_parameters host p with
           | Loaded params => Returned (Some params)
           | Invalid msg =>
               Raised (HTTPException 400
                         (of_string "Invalid parameters: " ++ msg))
           | NotAnObject msg => Raised (TypeError msg)
           end
      else Returned None
  end.

(** [document_parser.parse_document] on the file at [file_path]. *)
Definition parse_document_at (file_path file_extension : str)
  : IO (str * bool) :=
  fun sv =>
    let data := dict_lookup file_path (disk sv) in
    let file := mkFile (open_docx host data) (open_pdf host data) in
    match parse_document file file_extension with
    | Ok extracted => (Returned extracted, sv)
    | Err e => (Raised (Exception e), sv)
    end.

(** The [try] block of [anonymize_upload] once the file is saved. *)
Definition process (temp_file : TempFile) (provider : str)
    (params : option LLMParameters) : IO FileUploadResponse :=
  extracted <- parse_document_at (file_path temp_file)
                 (file_extension temp_file) ;;
  let (extracted_text, used_ocr) := extracted : str * bool in
  if negb (truthy (strip extracted_text))
  then throw (HTTPException 400
                (of_string "No text could be extracted from the document"))
  else
    result <- lift_service
                (Service.anonymize_text PHI_ANONYMIZATION_PROMPT settings
                   world extracted_text provider params) ;;
    pure (mkFileUploadResponse (original_filename temp_file)
            (file_extension temp_file) used_ocr result).

(** [POST /anonymize/upload]: the [finally] clause cleans up when
    [temp_file] has been set. *)
Definition anonymize_upload (file : UploadFile) (provider : str)
    (parameters : option str) : IO FileUploadResponse :=
  fun sv =>
    match parse_parameters parameters with
    | Raised e => (Raised (handled e), sv)
    | Returned params =>
        match save_temp_file world upload_settings host file sv with
        | (Raised e, sv1) => (Raised (handled e), sv1)
        | (Returned temp_file, sv1) =>
            let (r, sv2) := process temp_file provider params sv1 in
            let (_, sv3) := cleanup_file host (file_id temp_file) sv2 in
            (match r with
             | Returned response => Returned response
             | Raised e => Raised (handled e)
             end, sv3)
        end
    end.

(** [GET /anonymize/providers] *)
Definition get_providers : list ProviderInfo :=
  let anthropic_configured := truthy (ANTHROPIC_API_KEY settings) in
  let openai_configured := truthy (OPENAI_API_KEY settings) in
  let ollama_available := truthy (OLLAMA_BASE_URL settings) in
  [mkProviderInfo (of_string "anthropic") anthropic_configured
     anthropic_configured;
   mkProviderInfo (of_string "openai") openai_configured openai_configured;
   mkProviderInfo (of_string "ollama") ollama_available ollama_available].

End WithHost.

End Api.

(* ================================================================== *)
(** * Synthetic responses *)
(* ================================================================== *)

Module Synthetic.
Import Py Re Models Parser.

(** The header lines and the entry layout of the scenario of the design
    document. *)
Definition header1 : str := of_string "BLOCK 1 - PHI REPLACEMENT LOG" ++ [LF].

Definition header2 : str :=
  of_string "BLOCK 2 - DE-IDENTIFIED DOCUMENT" ++ [LF].

Definition render_entry (e : PHIReplacement) : str :=
  of_string "Category: " ++ category e
  ++ of_string " Original token: " ++ original_token e
  ++ of_string " Replacement: " ++ replacement e
  ++ of_string " Consistency key: " ++ consistency_key e ++ [LF].

Definition render_log (es : list PHIReplacement) : str :=
  concat (map render_entry es).

(** The response with the entries [es] in its log block and [body] as its
    document block. *)
Definition synthetic (es : list PHIReplacement) (body : str) : str :=
  header1 ++ render_log es ++ header2 ++ body.

(** A text without its asterisks. *)
Definition no_star (s : str) : str := filter (fun c => negb (N.eqb c 42)) s.










End Synthetic.

(** Boolean tests on code points, as facts [lia] can use. *)
Ltac n_bools :=
  repeat match goal with
    | H : (_ && _)%bool = true |- _ => apply andb_prop in H; destruct H
    | H : (_ || _)%bool = true |- _ => apply orb_prop in H; destruct H
    | H : (_ && _)%bool = false |- _ => apply andb_false_iff in H; destruct H
    | H : (_ || _)%bool = false |- _ => apply orb_false_iff in H; destruct H
    | H : negb _ = true |- _ => apply negb_true_iff in H
    | H : negb _ = false |- _ => apply negb_false_iff in H
    | H : N.leb _ _ = true |- _ => apply N.leb_le in H
    | H : N.leb _ _ = false |- _ => apply N.leb_gt in H
    | H : N.eqb _ _ = true |- _ => apply N.eqb_eq in H
    | H : N.eqb _ _ = false |- _ => apply N.eqb_neq in H
    end.

(* ================================================================== *)
(** * Properties of the matcher *)
(* ================================================================== *)

Module ReFacts.
Import Py Re.

Lemma consumed_app (u t : str) : consumed (u ++ t) t = u.
Proof.
  unfold consumed. rewrite length_app.
  replace (length u + length t - length t) with (length u) by lia.
  rewrite firstn_app, firstn_all, Nat.sub_diag. simpl. apply app_nil_r.
Qed.


(** A successful loop stopped somewhere, and the continuation accepted
    what was left there. *)
Lemma star_greedy_sound (R : Type) (cs : cset) (k : str -> option R) :
  forall s x, star_greedy cs k s = Some x ->
  exists s', accepts (Star Greedy cs) s s' /\ k s' = Some x.
Proof.
  induction s as [|c s IH]; simpl; intros x H.
  - exists []. split; [constructor | exact H].
  - destruct (cmatch cs c) eqn:Hc.
    + destruct (star_greedy cs k s) as [y|] eqn:Hs.
      * destruct (IH y eq_refl) as (s' & Ha & Hk).
        exists s'. split; [now constructor | congruence].
      * exists (c :: s). split; [constructor | exact H].
    + exists (c :: s). split; [constructor | exact H].
Qed.

Lemma star_lazy_sound (R : Type) (cs : cset) (k : str -> option R) :
  forall s x, star_lazy cs k s = Some x ->
  exists s', accepts (Star Lazy cs) s s' /\ k s' = Some x.
Proof.
  induction s as [|c s IH]; simpl; intros x H.
  - destruct (k []) eqn:Hk; [|discriminate].
    exists []. split; [constructor | congruence].
  - destruct (k (c :: s)) eqn:Hk.
    + exists (c :: s). split; [constructor | congruence].
    + destruct (cmatch cs c) eqn:Hc; [|discriminate].
      destruct (IH x H) as (s' & Ha & Hk').
      exists s'. split; [now constructor | exact Hk'].
Qed.

Lemma lookup_cons_set (n m : nat) (v : str) (g : groups) :
  is_set n g -> is_set n ((m, v) :: g).
Proof.
  unfold is_set. simpl. destruct (Nat.eqb m n); [discriminate | auto].
Qed.

(** Soundness: when the matcher succeeds, the pattern accepted a prefix,
    the continuation accepted the rest, and the groups it was handed hold
    every group set before and every group the pattern defines. *)
Lemma rmatch_sound (r : regex) :
  forall (R : Type) (k : str -> groups -> option R) s g x,
  rmatch r k s g = Some x ->
  exists s' g',
    accepts r s s' /\ k s' g' = Some x
    /\ (forall n, is_set n g -> is_set n g')
    /\ (forall n, defines n r = true -> is_set n g').
Proof.
  induction r as [|cs|a IHa b IHb|a IHa b IHb|gr cs|m a IHa|a IHa|];
    intros R k s g x H; simpl in H.
  - exists s, g. repeat split; auto; try constructor. discriminate.
  - destruct s as [|c s]; [discriminate|].
    destruct (cmatch cs c) eqn:Hc; [|discriminate].
    exists s, g. repeat split; auto; try now constructor. discriminate.
  - destruct (IHa _ _ _ _ _ H) as (s1 & g1 & Ha & Hk & Hm1 & Hd1).
    destruct (IHb _ _ _ _ _ Hk) as (s2 & g2 & Hb & Hk2 & Hm2 & Hd2).
    exists s2, g2. repeat split; auto.
    + econstructor; eauto.
    + simpl. intros n Hn. apply orb_prop in Hn. destruct Hn; auto.
  - destruct (rmatch a k s g) as [y|] eqn:Hy.
    + destruct (IHa _ _ _ _ _ Hy) as (s1 & g1 & Ha & Hk & Hm1 & Hd1).
      exists s1, g1. repeat split; auto.
      * now apply A_AltL.
      * congruence.
      * simpl. intros n Hn. apply andb_prop in Hn. destruct Hn; auto.
    + destruct (IHb _ _ _ _ _ H) as (s1 & g1 & Hb & Hk & Hm1 & Hd1).
      exists s1, g1. repeat split; auto.
      * now apply A_AltR.
      * simpl. intros n Hn. apply andb_prop in Hn. destruct Hn; auto.
  - destruct gr.
    + destruct (star_greedy_sound _ _ _ H) as (s' & Ha & Hk).
      exists s', g. repeat split; auto. discriminate.
    + destruct (star_lazy_sound _ _ _ H) as (s' & Ha & Hk).
      exists s', g. repeat split; auto. discriminate.
  - destruct (IHa _ _ _ _ _ H) as (s1 & g1 & Ha & Hk & Hm1 & Hd1).
    exists s1, ((m, consumed s s1) :: g1). repeat split; auto.
    + now constructor.
    + intros n Hn. apply lookup_cons_set. auto.
    + simpl. intros n Hn. unfold is_set. simpl.
      destruct (Nat.eqb m n); [discriminate|].
      apply Hd1. exact Hn.
  - destruct (rmatch a (fun _ g' => Some g') s g) as [g1|] eqn:Hy;
      [|discriminate].
    destruct (IHa _ _ _ _ _ Hy) as (s1 & g1' & Ha & Hk & Hm1 & Hd1).
    assert (g1' = g1) by congruence. subst g1'.
    exists s, g1. repeat split; auto.
    econstructor; eauto.
  - destruct s; [|discriminate].
    exists [], g. repeat split; auto; try constructor. discriminate.
Qed.

(** Completeness: the matcher finds a match whenever the pattern accepts
    a prefix whose rest the continuation takes, whatever the groups. *)
Lemma rmatch_complete (r : regex) (s s' : str) :
  accepts r s s' ->
  forall (R : Type) (k : str -> groups -> option R) g,
  (forall g', k s' g' <> None) -> rmatch r k s g <> None.
Proof.
  induction 1 as [s|cs c s Hc|a b s s1 s2 Ha IHa Hb IHb|a b s s' Ha IHa
                 |a b s s' Hb IHb|gr cs s|gr cs c s s' Hc Hs IHs
                 |n a s s' Ha IHa|a s s' Ha IHa|];
    intros R k g Hk; simpl.
  - apply Hk.
  - rewrite Hc. apply Hk.
  - apply IHa. intros g'. apply IHb. exact Hk.
  - specialize (IHa R k g Hk).
    destruct (rmatch a k s g); [discriminate | contradiction].
  - specialize (IHb R k g Hk).
    destruct (rmatch a k s g); [discriminate | exact IHb].
  - destruct gr.
    + destruct s as [|c s]; simpl; [apply Hk|].
      destruct (cmatch cs c); [|apply Hk].
      destruct (star_greedy cs (fun s' => k s' g) s); [discriminate|apply Hk].
    + destruct s as [|c s]; simpl.
      * specialize (Hk g). destruct (k [] g); [discriminate | contradiction].
      * specialize (Hk g). destruct (k (c :: s) g);
          [discriminate | contradiction].
  - specialize (IHs R k g Hk). destruct gr; simpl in *.
    + rewrite Hc.
      destruct (star_greedy cs (fun s' => k s' g) s);
        [discriminate | contradiction].
    + destruct (k (c :: s) g); [discriminate|].
      rewrite Hc. exact IHs.
  - apply IHa. intros g'. apply Hk.
  - specialize (IHa groups (fun _ g' => Some g') g).
    destruct (rmatch a (fun _ g' => Some g') s g) as [g1|].
    + apply Hk.
    + exfalso. apply IHa; [intros; discriminate | reflexivity].
  - apply Hk.
Qed.

(** What is left after a match is a suffix of the subject. *)
Lemma accepts_suffix (r : regex) (s s' : str) :
  accepts r s s' -> exists p, s = p ++ s'.
Proof.
  induction 1.
  - now exists [].
  - now exists [c].
  - destruct IHaccepts1 as (p1 & ->). destruct IHaccepts2 as (p2 & ->).
    exists (p1 ++ p2). now rewrite app_assoc.
  - assumption.
  - assumption.
  - now exists [].
  - destruct IHaccepts as (p & ->). now exists (c :: p).
  - assumption.
  - now exists [].
  - now exists [].
Qed.

Lemma accepts_length (r : regex) (s s' : str) :
  accepts r s s' -> length s' <= length s.
Proof.
  intros H. destruct (accepts_suffix H) as (p & ->).
  rewrite length_app. lia.
Qed.

Lemma accepts_consuming (r : regex) (s s' : str) :
  accepts r s s' -> consuming r = true -> length s' < length s.
Proof.
  induction 1 as [s|cs c s Hc|a b s s1 s2 Ha IHa Hb IHb|a b s s' Ha IHa
                 |a b s s' Hb IHb|gr cs s|gr cs c s s' Hc Hs IHs
                 |n a s s' Ha IHa|a s s' Ha IHa|];
    simpl; intros Hr; try discriminate.
  - lia.
  - apply orb_prop in Hr. pose proof (accepts_length Ha).
    pose proof (accepts_length Hb). destruct Hr as [Hr|Hr].
    + specialize (IHa Hr). lia.
    + specialize (IHb Hr). lia.
  - apply andb_prop in Hr. now apply IHa.
  - apply andb_prop in Hr. now apply IHb.
  - now apply IHa.
Qed.

Lemma match_at_accepts (r : regex) (s : str) (m : Match) :
  match_at r s = Some m ->
  accepts r s (m_rest m)
  /\ (forall n, defines n r = true -> group m n <> None)
  /\ m_len m = length s - length (m_rest m).
Proof.
  unfold match_at. intros H.
  destruct (rmatch_sound _ _ _ _ H) as (s' & g' & Ha & Hk & _ & Hd).
  injection Hk as <-. simpl. repeat split; auto.
Qed.

Lemma accepts_match_at (r : regex) (s s' : str) :
  accepts r s s' -> match_at r s <> None.
Proof.
  intros H. unfold match_at. apply (rmatch_complete H). discriminate.
Qed.

(** ** [search] *)

Lemma search_some (r : regex) :
  forall s m, search r s = Some m ->
  exists u t, s = u ++ t /\ match_at r t = Some m.
Proof.
  induction s as [|c s IH]; simpl; intros m H.
  - destruct (match_at r []) eqn:E; [|discriminate].
    exists [], []. split; [reflexivity | congruence].
  - destruct (match_at r (c :: s)) eqn:E.
    + exists [], (c :: s). split; [reflexivity | congruence].
    + destruct (IH m H) as (u & t & -> & Ht).
      exists (c :: u), t. split; [reflexivity | exact Ht].
Qed.

Lemma search_none (r : regex) :
  forall s, search r s = None ->
  forall u t, s = u ++ t -> match_at r t = None.
Proof.
  induction s as [|c s IH]; simpl; intros H u t E.
  - destruct (match_at r []) eqn:E0; [discriminate|].
    symmetry in E. apply app_eq_nil in E. destruct E as [_ ->]. exact E0.
  - destruct (match_at r (c :: s)) eqn:E0; [discriminate|].
    destruct u as [|c' u]; simpl in E.
    + subst t. exact E0.
    + injection E as _ E. eapply IH; eauto.
Qed.

Lemma search_none_intro (r : regex) :
  forall s, (forall u t, s = u ++ t -> match_at r t = None) ->
  search r s = None.
Proof.
  induction s as [|c s IH]; simpl; intros H.
  - now rewrite (H [] [] eq_refl).
  - rewrite (H [] (c :: s) eq_refl). apply IH.
    intros u t ->. apply (H (c :: u) t). reflexivity.
Qed.



(** ** [finditer] and [split] *)

Lemma finditer_from_matches (r : regex) :
  forall s skip,
  Forall (fun m => exists t, match_at r t = Some m) (finditer_from r skip s).
Proof.
  induction s as [|c s IH]; intros skip; simpl.
  - destruct skip; [|constructor].
    destruct (match_at r []) eqn:E; constructor; eauto.
  - destruct skip; [|apply IH].
    destruct (match_at r (c :: s)) eqn:E; [|apply IH].
    constructor; [eauto | apply IH].
Qed.

Lemma split_from_none (r : regex) :
  forall s piece,
  (forall u t, s = u ++ t -> match_at r t = None) ->
  split_from r 0 piece s = [piece ++ s].
Proof.
  induction s as [|c s IH]; intros piece H; simpl.
  - now rewrite app_nil_r.
  - rewrite (H [] (c :: s) eq_refl).
    rewrite IH.
    + now rewrite <- app_assoc.
    + intros u t ->. apply (H (c :: u) t). reflexivity.
Qed.

End ReFacts.

(* ================================================================== *)
(** * The response parser: totality and the fallbacks *)
(* ================================================================== *)

Module ParserFacts.
Import Py Re Models Parser ReFacts.

Lemma search_group_set (r : regex) (n : nat) (s : str) (m : Match) :
  defines n r = true -> search r s = Some m -> group m n <> None.
Proof.
  intros Hd Hs. destruct (search_some _ _ Hs) as (u & t & _ & Hm).
  apply (match_at_accepts _ _ Hm). exact Hd.
Qed.

Lemma group_strip_ok (m : Match) (n : nat) :
  group m n <> None -> exists t, group_strip m n = Ok t.
Proof.
  unfold group_strip. destruct (group m n); [eauto | congruence].
Qed.

Lemma collect_entries_ok (ms : list Match) :
  Forall (fun m => exists t, match_at entry_pattern t = Some m) ms ->
  forall log, exists log', collect_entries ms log = Ok log'.
Proof.
  induction 1 as [|m ms (t & Hm) _ IH]; intros log; simpl; [eauto|].
  destruct (match_at_accepts _ _ Hm) as (_ & Hd & _).
  destruct (group_strip_ok m 1 (Hd 1 eq_refl)) as (c & ->).
  destruct (group_strip_ok m 2 (Hd 2 eq_refl)) as (o & ->).
  destruct (group_strip_ok m 3 (Hd 3 eq_refl)) as (r & ->).
  destruct (group_strip_ok m 4 (Hd 4 eq_refl)) as (k & ->).
  simpl. apply IH.
Qed.

(** The two patterns that [re.split] and [re.finditer] run match no
    empty string, as the models of these two functions suppose. *)
Lemma consuming_match (r : regex) (s : str) (m : Match) :
  consuming r = true -> match_at r s = Some m -> 0 < m_len m.
Proof.
  intros Hr Hm. destruct (match_at_accepts _ _ Hm) as (Ha & _ & ->).
  pose proof (accepts_consuming Ha Hr). lia.
Qed.

Lemma split_pattern_consumes (s : str) (m : Match) :
  match_at split_pattern s = Some m -> 0 < m_len m.
Proof. now apply consuming_match. Qed.

Lemma entry_pattern_consumes (s : str) (m : Match) :
  match_at entry_pattern s = Some m -> 0 < m_len m.
Proof. now apply consuming_match. Qed.

(** The document part of [parse_llm_response] and its log part never
    raise. *)
Lemma document_part_ok (response : str) :
  exists anonymized_text,
    match search doc_pattern (clean response) with
    | Some m => group_strip m 1
    | None =>
        if Nat.ltb 1 (length (split split_pattern (clean response)))
        then Ok (strip (last (split split_pattern (clean response)) []))
        else Ok response
    end = Ok anonymized_text.
Proof.
  destruct (search doc_pattern (clean response)) as [m|] eqn:Hs.
  - apply group_strip_ok. apply (search_group_set doc_pattern 1 _ eq_refl Hs).
  - destruct (Nat.ltb _ _); eauto.
Qed.

Lemma log_part_ok (response : str) :
  exists replacement_log,
    match search log_pattern (clean response) with
    | Some m =>
        match group m 1 with
        | Some log_text => collect_entries (finditer entry_pattern log_text) []
        | None => Err AttributeError
        end
    | None => Ok []
    end = Ok replacement_log.
Proof.
  destruct (search log_pattern (clean response)) as [m|] eqn:Hs; [|eauto].
  pose proof (search_group_set log_pattern 1 _ eq_refl Hs) as Hg.
  destruct (group m 1) as [log_text|]; [|congruence].
  apply collect_entries_ok. apply finditer_from_matches.
Qed.

(** C1. [parse_llm_response] is total: on every string, be it empty, with
    malformed markers or with a block missing, it returns a pair of a
    replacement log and an anonymized text, and raises nothing.  In the
    model the only way to raise is to read a group that took no part in
    its match; the proof shows that every group the parser reads is set by
    every match of its pattern. *)
Theorem parse_llm_response_total (response : str) :
  exists replacement_log anonymized_text,
    parse_llm_response response = Ok (replacement_log, anonymized_text).
Proof.
  unfold parse_llm_response.
  destruct (document_part_ok response) as (text & ->).
  destruct (log_part_ok response) as (log & ->).
  simpl. eauto.
Qed.

(** ** No marker: the whole response comes back *)

Lemma seq_accepts_head (a b : regex) (s s' : str) :
  accepts (Seq a b) s s' -> exists s1, accepts a s s1.
Proof. inversion 1; eauto. Qed.

(** A pattern that starts with a pattern matching nowhere matches nowhere. *)
Lemma match_at_none_prefix (r r0 : regex) (t : str) :
  (forall s s', accepts r s s' -> exists s1, accepts r0 s s1) ->
  match_at r0 t = None -> match_at r t = None.
Proof.
  intros Hsub H0. destruct (match_at r t) as [m|] eqn:Hm; [|reflexivity].
  destruct (match_at_accepts _ _ Hm) as (Ha & _).
  destruct (Hsub _ _ Ha) as (s1 & H1).
  now apply accepts_match_at in H1.
Qed.

Lemma doc_pattern_starts_with_split (s s' : str) :
  accepts doc_pattern s s' -> exists s1, accepts split_pattern s s1.
Proof.
  unfold doc_pattern, split_pattern. cbn [seqs]. intros H.
  inversion H as [| |a b x s1 x2 H1 H2| | | | | | |]; subst; clear H.
  inversion H2 as [| |a b x s2 x2 H3 H4| | | | | | |]; subst; clear H2.
  inversion H4 as [| |a b x s3 x2 H5 H6| | | | | | |]; subst; clear H4.
  exists s3. repeat (econstructor; eauto).
Qed.

Lemma split_pattern_starts_with_marker (s s' : str) :
  accepts split_pattern s s' -> exists s1, accepts doc_marker s s1.
Proof. unfold split_pattern. cbn [seqs]. apply seq_accepts_head. Qed.

(** The log pattern ends with a look-ahead for the document marker. *)
Lemma log_pattern_sees_marker (s s' : str) :
  accepts log_pattern s s' ->
  exists u t t', s = u ++ t /\ accepts doc_marker t t'.
Proof.
  unfold log_pattern. cbn [seqs]. intros H.
  inversion H as [| |a b x s1 x2 H1 H2| | | | | | |]; subst; clear H.
  inversion H2 as [| |a b x s2 x2 H3 H4| | | | | | |]; subst; clear H2.
  inversion H4 as [| |a b x s3 x2 H5 H6| | | | | | |]; subst; clear H4.
  inversion H6 as [| |a b x s4 x2 H7 H8| | | | | | |]; subst; clear H6.
  inversion H8 as [| | | | | | | |a x t' H9|]; subst; clear H8.
  destruct (accepts_suffix H1) as (p1 & ->).
  destruct (accepts_suffix H3) as (p2 & ->).
  destruct (accepts_suffix H5) as (p3 & ->).
  destruct (accepts_suffix H7) as (p4 & ->).
  exists (p1 ++ p2 ++ p3 ++ p4), s', t'.
  split; [now rewrite <- !app_assoc | exact H9].
Qed.

Lemma no_header_no_document (response : str) :
  search split_pattern (clean response) = None ->
  search doc_pattern (clean response) = None
  /\ split split_pattern (clean response) = [clean response].
Proof.
  intros H. split.
  - apply search_none_intro. intros u t E.
    eapply match_at_none_prefix; [apply doc_pattern_starts_with_split|].
    eapply search_none; eauto.
  - unfold split. rewrite split_from_none; [reflexivity|].
    intros u t E. eapply search_none; eauto.
Qed.

Lemma no_marker_no_header (s : str) :
  search doc_marker s = None -> search split_pattern s = None.
Proof.
  intros H. apply search_none_intro. intros u t E.
  eapply match_at_none_prefix; [apply split_pattern_starts_with_marker|].
  eapply search_none; eauto.
Qed.

Lemma no_marker_no_log (s : str) :
  search doc_marker s = None -> search log_pattern s = None.
Proof.
  intros H. apply search_none_intro. intros u t E.
  destruct (match_at log_pattern t) as [m|] eqn:Hm; [|reflexivity].
  destruct (match_at_accepts _ _ Hm) as (Ha & _).
  destruct (log_pattern_sees_marker Ha) as (u' & t' & t'' & -> & Hacc).
  apply accepts_match_at in Hacc.
  assert (Hn : match_at doc_marker t' = None).
  { eapply search_none; [exact H|]. rewrite E, app_assoc. reflexivity. }
  congruence.
Qed.

(** C3. When the parser finds no "BLOCK 2" or "DE-IDENTIFIED DOCUMENT"
    marker anywhere in the response (cleaned of asterisks, as the parser
    searches it), it returns an empty replacement log and the full raw
    response as the anonymized text. *)
Theorem no_marker_returns_raw_response (response : str) :
  search doc_marker (clean response) = None ->
  parse_llm_response response = Ok ([], response).
Proof.
  intros H. unfold parse_llm_response.
  destruct (no_header_no_document response (no_marker_no_header _ H))
    as (-> & ->).
  rewrite (no_marker_no_log _ H). reflexivity.
Qed.

Lemma no_marker_returns_raw_response_witness :
  parse_llm_response (of_string "The model declined to answer.")
  = Ok ([], of_string "The model declined to answer.").
Proof.
  apply no_marker_returns_raw_response. vm_compute. reflexivity.
Defined.





End ParserFacts.

(* ================================================================== *)
(** * Provider selection, the Ollama provider and the orchestrator *)
(* ================================================================== *)

Module ServiceFacts.
Import Py Models Config Service.

(** [spelled] is [name], a word in small ASCII letters, with any of its
    letters as a capital. *)
Definition case_variant (spelled name : str) : Prop :=
  Forall2 (fun c l => between 97 122 l = true
                      /\ (c = l \/ (c + 32)%N = l)) spelled name.

Lemma lower_char_small (l : char) :
  between 97 122 l = true -> lower_char l = [l].
Proof.
  intros H. unfold lower_char, between in *. n_bools.
  destruct (N.leb 65 l && N.leb l 90)%bool eqn:E1; n_bools; try lia;
    (destruct (N.eqb l 8490) eqn:E2; n_bools; [lia|];
     destruct (N.eqb l 304) eqn:E3; n_bools; [lia|]; reflexivity).
Qed.

Lemma lower_char_capital (c l : char) :
  between 97 122 l = true -> (c + 32)%N = l -> lower_char c = [l].
Proof.
  intros H E. unfold lower_char, between in *. n_bools.
  destruct (N.leb 65 c && N.leb c 90)%bool eqn:E1.
  - now rewrite E.
  - exfalso. n_bools; lia.
Qed.

(** [lower] undoes every choice of capitals. *)
Lemma lower_case_variant (spelled name : str) :
  case_variant spelled name -> lower spelled = name.
Proof.
  induction 1 as [|c l spelled name (Hl & Hc) _ IH]; [reflexivity|].
  unfold lower in *. simpl. rewrite IH.
  destruct Hc as [->|Hc].
  - now rewrite lower_char_small.
  - now rewrite (lower_char_capital c Hl Hc).
Qed.

Lemma str_eqb_eq (a b : str) : str_eqb a b = true <-> a = b.
Proof.
  revert b. induction a as [|x a IH]; intros [|y b]; simpl;
    try (split; [discriminate | discriminate]); try tauto.
  rewrite andb_true_iff, N.eqb_eq, IH. split.
  - intros [-> ->]. reflexivity.
  - intros E. injection E as -> ->. auto.
Qed.

Lemma str_eqb_neq (a b : str) : a <> b -> str_eqb a b = false.
Proof.
  intros H. destruct (str_eqb a b) eqn:E; [|reflexivity].
  apply str_eqb_eq in E. contradiction.
Qed.

(** [get_provider] reads the name through [lower] only. *)
Lemma get_provider_lower (settings : Settings) (a b : str) :
  lower a = lower b -> get_provider settings a = get_provider settings b.
Proof. unfold get_provider. now intros ->. Qed.

Definition anthropic : str := of_string "anthropic".
Definition openai : str := of_string "openai".
Definition ollama : str := of_string "ollama".
Definition local : str := of_string "local".

Lemma case_variant_refl (name : str) :
  forallb (between 97 122) name = true -> case_variant name name.
Proof.
  induction name as [|l name IH]; simpl; intros H; [constructor|].
  apply andb_prop in H. destruct H as [Hl H].
  constructor; [split; [exact Hl | now left] | apply IH; exact H].
Qed.

(** A failed selection ends the run before any call is made: only the
    clock has been read. *)
Lemma anonymize_text_selection_failed
    (prompt : str) (settings : Settings) (world : World)
    (text provider_name : str) (params : option LLMParameters)
    (st : state) (e : exn) :
  get_provider settings provider_name = Err e ->
  anonymize_text prompt settings world text provider_name params st
  = (Err e, mkState (calls st) (S (readings st))).
Proof.
  intros H. unfold anonymize_text, mbind, time_time, lift. now rewrite H.
Qed.

(** C6. Provider selection ignores the case of the name: every spelling
    of "anthropic", "openai", "ollama" and its alias "local" with capitals
    selects what the name in small letters selects.  A hosted provider
    whose API key is not configured, and every name that is none of the
    four, makes the selection fail with the [ValueError] the design
    document calls ConfigurationError; the run of [anonymize_text] then
    ends with that error and has made no network call. *)
Theorem provider_selection
    (prompt : str) (settings : Settings) (world : World)
    (provider_name : str) :
  (forall name, In name [anthropic; openai; ollama; local] ->
     case_variant provider_name name ->
     get_provider settings provider_name = get_provider settings name)
  /\ (lower provider_name = anthropic ->
      get_provider settings provider_name
      = if truthy (ANTHROPIC_API_KEY settings)
        then Ok (new_AnthropicProvider (ANTHROPIC_API_KEY settings))
        else Err (ValueError (of_string "Anthropic API key not configured")))
  /\ (lower provider_name = openai ->
      get_provider settings provider_name
      = if truthy (OPENAI_API_KEY settings)
        then Ok (new_OpenAIProvider (OPENAI_API_KEY settings))
        else Err (ValueError (of_string "OpenAI API key not configured")))
  /\ (lower provider_name = ollama \/ lower provider_name = local ->
      get_provider settings provider_name
      = Ok (new_OllamaProvider (OLLAMA_BASE_URL settings)
              (OLLAMA_MODEL settings)))
  /\ (~ In (lower provider_name) [anthropic; openai; ollama; local] ->
      get_provider settings provider_name
      = Err (ValueError (of_string "Invalid provider: "
                         ++ lower provider_name)))
  /\ (forall e text params st,
      get_provider settings provider_name = Err e ->
      exists st',
        anonymize_text prompt settings world text provider_name params st
        = (Err e, st')
        /\ calls st' = calls st).
Proof.
  repeat split.
  - intros name Hin Hv. apply get_provider_lower.
    rewrite (lower_case_variant Hv).
    symmetry. apply lower_case_variant. apply case_variant_refl.
    simpl in Hin.
    destruct Hin as [<-|[<-|[<-|[<-|[]]]]]; reflexivity.
  - intros E. unfold get_provider. rewrite E. simpl.
    now destruct (truthy (ANTHROPIC_API_KEY settings)).
  - intros E. unfold get_provider. rewrite E. simpl.
    now destruct (truthy (OPENAI_API_KEY settings)).
  - intros [E|E]; unfold get_provider; rewrite E; reflexivity.
  - intros H. unfold get_provider. simpl in H.
    rewrite !str_eqb_neq; [reflexivity| | | |]; intros E; apply H;
      unfold anthropic, openai, ollama, local; rewrite <- E; auto.
  - intros e text params st H.
    eexists. split.
    + apply anonymize_text_selection_failed. exact H.
    + reflexivity.
Qed.

(** The selection on some spellings. *)
Example selection_examples (settings : Settings) :
  get_provider settings (of_string "OpenAI")
  = get_provider settings (of_string "openai")
  /\ get_provider settings (of_string "LOCAL")
     = Ok (new_OllamaProvider (OLLAMA_BASE_URL settings)
             (OLLAMA_MODEL settings))
  /\ get_provider settings (of_string "claude")
     = Err (ValueError (of_string "Invalid provider: claude")).
Proof. repeat split. Qed.

(** ** The Ollama provider *)

Definition after_call (st : state) (c : call) : state :=
  mkState (calls st ++ [c]) (readings st).

(** C7, amended. Whenever the Ollama endpoint answers with a status other
    than 200, [anonymize] fails with a [ValueError] (the design document's
    ProviderError) whose message carries the status code, in decimal, and
    the response body.  On status 200, with a body that decodes to a JSON
    object, it returns the "response" member of the object (the empty
    string when there is none) with the provider identifier "ollama". *)
Theorem ollama_status_handling
    (prompt : str) (settings : Settings) (world : World)
    (base_url model_name text : str) (params : option LLMParameters)
    (st : state) (response : http_response) :
  let req := ollama_request prompt settings base_url model_name text params in
  let run := OllamaProvider_anonymize prompt settings world
               base_url model_name text params st in
  http_post world req = Ok response ->
  (status_code response <> 200%Z ->
     run = (Err (ValueError
                   (of_string "Ollama API error: "
                    ++ str_of_Z (status_code response)
                    ++ of_string " - " ++ Service.text response)),
            after_call st (HttpPost req)))
  /\ (status_code response = 200%Z ->
      forall body, json response = Some body ->
      run = (Ok (dict_get (of_string "response") body [], of_string "ollama"),
             after_call st (HttpPost req))).
Proof.
  intros req run Hpost. subst run.
  unfold OllamaProvider_anonymize, mbind, perform. fold req. rewrite Hpost.
  split.
  - intros Hs. apply Z.eqb_neq in Hs. rewrite Hs. reflexivity.
  - intros Hs body Hb. rewrite Hs, Hb. reflexivity.
Qed.

(** Worlds for the examples: each answers every request the same way. *)
Definition world_answering (r : http_response) : World :=
  mkWorld (fun _ => Ok [of_string "unused"])
          (fun _ => Ok [of_string "unused"])
          (fun _ => Ok r)
          (fun n => inject_Z (Z.of_nat n)).

Definition example_settings : Settings :=
  mkSettings [] [] (of_string "http://localhost:11434") (of_string "llama2")
    (3 # 10) 8000 1 4096.

Definition st0 : state := mkState [] 0.

(** The body [{"response": "ok"}]. *)
Definition ok_body : str :=
  of_string "{" ++ [34%N] ++ of_string "response" ++ [34%N] ++ of_string ": "
  ++ [34%N] ++ of_string "ok" ++ [34%N] ++ of_string "}".

Definition ok_object : list (str * str) :=
  [(of_string "response", of_string "ok")].

Definition not_found : http_response :=
  mkHttp 404 (of_string "model not found") None.

Lemma ollama_status_handling_witness :
  OllamaProvider_anonymize [] example_settings (world_answering not_found)
    (of_string "http://localhost:11434") (of_string "llama2")
    (of_string "Jane Roe, MRN 12345") None st0
  = (Err (ValueError (of_string "Ollama API error: 404 - model not found")),
     after_call st0
       (HttpPost (ollama_request [] example_settings
                    (of_string "http://localhost:11434") (of_string "llama2")
                    (of_string "Jane Roe, MRN 12345") None))).
Proof.
  apply (ollama_status_handling [] example_settings
           (world_answering not_found)
           (of_string "http://localhost:11434") (of_string "llama2")
           (of_string "Jane Roe, MRN 12345") None st0 (response := not_found)).
  - reflexivity.
  - discriminate.
Defined.

(** C7, as stated, fails on a success status: 201 is one, and the call
    raises although the body holds a response; and on status 200 a body
    that is not JSON makes [response.json()] raise. *)
Lemma ollama_success_status_raises :
  (200 <= 201 < 300)%Z
  /\ fst (OllamaProvider_anonymize [] example_settings
            (world_answering (mkHttp 201 ok_body (Some ok_object)))
            (of_string "http://localhost:11434") (of_string "llama2")
            (of_string "Jane Roe, MRN 12345") None st0)
     = Err (ValueError (of_string "Ollama API error: 201 - " ++ ok_body))
  /\ fst (OllamaProvider_anonymize [] example_settings
            (world_answering (mkHttp 200 (of_string "<html>") None))
            (of_string "http://localhost:11434") (of_string "llama2")
            (of_string "Jane Roe, MRN 12345") None st0)
     = Err JSONDecodeError.
Proof. repeat split; try lia; vm_compute; reflexivity. Qed.

(** ** The orchestrator *)

(** The request [c] carries the document [text], between its markers. *)
Definition carries (prompt : str) (c : call) (text : str) : Prop :=
  match c with
  | AnthropicCreate r => chat_user r = wrap_document text
  | OpenAICreate r => chat_user r = wrap_document text
  | HttpPost r => gen_prompt r = prompt ++ [LF; LF] ++ wrap_document text
  end.

(** A provider makes one call, and the call carries the text it was
    given. *)
Lemma anonymize_calls_once
    (prompt : str) (settings : Settings) (world : World)
    (provider : LLMProvider) (text : str) (params : option LLMParameters)
    (st : state) :
  exists c,
    calls (snd (anonymize prompt settings world provider text params st))
    = calls st ++ [c]
    /\ readings (snd (anonymize prompt settings world provider text params st))
       = readings st
    /\ carries prompt c text.
Proof.
  destruct provider as [key model|key model|url model]; simpl.
  - exists (AnthropicCreate (chat_request_of prompt settings key model text params)).
    unfold AnthropicProvider_anonymize, mbind, perform, lift, ret.
    destruct (anthropic_create world _) as [content|e]; simpl; auto.
    destruct (first_of content); simpl; auto.
  - exists (OpenAICreate (chat_request_of prompt settings key model text params)).
    unfold OpenAIProvider_anonymize, mbind, perform, lift, ret.
    destruct (openai_create world _) as [content|e]; simpl; auto.
    destruct (first_of content); simpl; auto.
  - exists (HttpPost (ollama_request prompt settings url model text params)).
    unfold OllamaProvider_anonymize, mbind, perform, raise, ret.
    destruct (http_post world _) as [response|e]; simpl; auto.
    destruct (negb _); simpl; auto.
    destruct (json response); simpl; auto.
Qed.

(** C10. Every [AnonymizationResult] the orchestrator produces has its
    [original_text] set to the input text, the very text that was sent to
    the provider: the run made one call, and that call carries the text. *)
Theorem result_echoes_original_text
    (prompt : str) (settings : Settings) (world : World)
    (text provider_name : str) (params : option LLMParameters)
    (st st' : state) (res : AnonymizationResult) :
  anonymize_text prompt settings world text provider_name params st
  = (Ok res, st') ->
  original_text res = Some text
  /\ exists c, calls st' = calls st ++ [c] /\ carries prompt c text.
Proof.
  unfold anonymize_text, mbind, time_time, lift, ret.
  destruct (get_provider settings provider_name) as [provider|e];
    [|discriminate].
  destruct (anonymize_calls_once prompt settings world provider text params
              (mkState (calls st) (S (readings st))))
    as (c & Hc & _ & Hcar).
  destruct (anonymize prompt settings world provider text params _)
    as [[[raw used]|e] st1]; [|discriminate].
  destruct (Parser.parse_llm_response raw) as [[log anon]|e]; [|discriminate].
  intros H. injection H as <- <-. simpl in *.
  split; [reflexivity|]. exists c. auto.
Qed.

Definition ok_world : World := world_answering (mkHttp 200 ok_body (Some ok_object)).

Lemma result_echoes_original_text_witness :
  exists res st',
    anonymize_text [] example_settings ok_world
      (of_string "Jane Roe, MRN 12345") (of_string "Ollama") None st0
    = (Ok res, st')
    /\ original_text res = Some (of_string "Jane Roe, MRN 12345")
    /\ exists c, calls st' = calls st0 ++ [c]
                 /\ carries [] c (of_string "Jane Roe, MRN 12345").
Proof.
  eexists. eexists.
  assert (E : forall r s,
    r = fst (anonymize_text [] example_settings ok_world
               (of_string "Jane Roe, MRN 12345") (of_string "Ollama") None st0) ->
    s = snd (anonymize_text [] example_settings ok_world
               (of_string "Jane Roe, MRN 12345") (of_string "Ollama") None st0) ->
    anonymize_text [] example_settings ok_world
      (of_string "Jane Roe, MRN 12345") (of_string "Ollama") None st0 = (r, s)).
  { intros r s -> ->. apply surjective_pairing. }
  split.
  - apply E; vm_compute; reflexivity.
  - apply (result_echoes_original_text [] example_settings ok_world
             (of_string "Jane Roe, MRN 12345") (of_string "Ollama") None st0).
    apply E; vm_compute; reflexivity.
Defined.

(** With no API key configured, asking for "Anthropic" ends the run at
    the selection, the call log untouched. *)
Lemma provider_selection_witness :
  exists st',
    anonymize_text [] example_settings ok_world
      (of_string "Jane Roe, MRN 12345") (of_string "Anthropic") None st0
    = (Err (ValueError (of_string "Anthropic API key not configured")), st')
    /\ calls st' = calls st0.
Proof.
  destruct (provider_selection [] example_settings ok_world
              (of_string "Anthropic")) as (_ & Hkey & _ & _ & _ & Hrun).
  apply Hrun. exact (Hkey eq_refl).
Defined.

End ServiceFacts.

(* ================================================================== *)
(** * Text extraction *)
(* ================================================================== *)

Module DocumentFacts.
Import Py DocumentParser.

(** ** Word documents *)

(** A text is blank when it holds white space only, or nothing. *)
Definition blank (s : str) : bool := negb (truthy (strip s)).

(** The text of a row: its cells, stripped, with [" | "] between them. *)
Definition row_text (row : list str) : str :=
  join (of_string " | ") (map strip row).

(** The paragraphs that are not blank, in document order. *)
Definition paragraph_lines (doc : Document) : list str :=
  filter (fun p => negb (blank p)) (paragraphs doc).

(** The rows of all tables, in table order then row order, as texts; the
    blank ones left out. *)
Definition table_lines (doc : Document) : list str :=
  filter (fun t => negb (blank t)) (map row_text (concat (tables doc))).

(** The claim read to the letter: the paragraphs that are not empty, then
    every row with its cell texts joined. *)
Definition spec_parse_word (doc : Document) : str :=
  join [LF]
    (filter truthy (paragraphs doc)
     ++ map (join (of_string " | ")) (concat (tables doc))).

Lemma fold_add_paragraph (ps : list str) :
  forall parts,
  fold_left add_paragraph ps parts
  = parts ++ filter (fun p => negb (blank p)) ps.
Proof.
  induction ps as [|p ps IH]; intros parts; simpl.
  - now rewrite app_nil_r.
  - rewrite IH. unfold add_paragraph, blank.
    destruct (truthy (strip p)); simpl; [|reflexivity].
    now rewrite <- app_assoc.
Qed.

Lemma fold_add_row (rows : list (list str)) :
  forall parts,
  fold_left add_row rows parts
  = parts ++ filter (fun t => negb (blank t)) (map row_text rows).
Proof.
  induction rows as [|r rows IH]; intros parts; simpl.
  - now rewrite app_nil_r.
  - rewrite IH. unfold add_row, blank, row_text.
    destruct (truthy (strip (join (of_string " | ") (map strip r)))); simpl;
      [|reflexivity].
    now rewrite <- app_assoc.
Qed.

Lemma fold_tables (ts : list (list (list str))) :
  forall parts,
  fold_left (fun parts table => fold_left add_row table parts) ts parts
  = parts ++ filter (fun t => negb (blank t)) (map row_text (concat ts)).
Proof.
  induction ts as [|t ts IH]; intros parts; simpl.
  - now rewrite app_nil_r.
  - rewrite IH, fold_add_row, map_app, filter_app. now rewrite <- app_assoc.
Qed.

(** C8, as stated, fails: a paragraph of one space is not empty, yet
    [parse_word] leaves it out. *)
Lemma nonempty_paragraph_dropped :
  let doc := mkDocument [of_string " "; of_string "Assessment"] [] in
  spec_parse_word doc = of_string " " ++ [LF] ++ of_string "Assessment"
  /\ parse_word doc = of_string "Assessment".
Proof. split; vm_compute; reflexivity. Qed.

(** C8, amended. For every word-processor document, extraction returns,
    joined by line feeds, the texts of the paragraphs that are not blank
    (not made of white space only), in document order, followed, after
    all paragraphs, by the rows of each table in table order, a row
    rendered as its stripped cell texts joined by [" | "], the rows whose
    rendering is blank left out. *)
Theorem parse_word_paragraphs_then_tables (doc : Document) :
  parse_word doc = join [LF] (paragraph_lines doc ++ table_lines doc).
Proof.
  unfold parse_word, paragraph_lines, table_lines.
  now rewrite fold_tables, fold_add_paragraph.
Qed.

(** ** The OCR decision *)

(** The mean length of the texts [measure] gives for the pages sampled,
    the first three or all when there are fewer; 0 when there is none. *)
Definition mean_length (measure : Page -> str) (doc : Pdf) : Q :=
  let sample := firstn 3 doc in
  match sample with
  | [] => 0%Q
  | _ :: _ =>
      Qmake (Z.of_nat (list_sum (map (fun p => length (measure p)) sample)))
            (Pos.of_nat (length sample))
  end.

(** The text of a page as extracted, and with the white space around it
    taken off. *)
Definition extracted (p : Page) : str := get_text p.
Definition trimmed (p : Page) : str := strip (get_text p).

(** The loop of [detect_needs_ocr] computes that mean. *)
Lemma avg_text_per_page_mean (doc : Pdf) :
  avg_text_per_page doc = mean_length trimmed doc.
Proof.
  unfold avg_text_per_page, mean_length, total_text_length, trimmed.
  destruct doc as [|a [|b [|c d]]]; simpl; try reflexivity;
    unfold add_page_length; simpl; f_equal; f_equal; lia.
Qed.

Lemma Qlt_bool_iff (a b : Q) : Qlt_bool a b = true <-> (a < b)%Q.
Proof.
  unfold Qlt_bool. rewrite negb_true_iff.
  split.
  - intros H. apply Qnot_le_lt. intros Hle.
    apply Qle_bool_iff in Hle. congruence.
  - intros H. destruct (Qle_bool b a) eqn:E; [|reflexivity].
    apply Qle_bool_iff in E. exfalso. apply (Qlt_not_le _ _ H E).
Qed.

(** C5, as stated, fails: a page whose extracted text is 99 letters and a
    line feed has 100 characters of native text, and is still sent to
    OCR, the line feed not being counted. *)
Lemma hundred_characters_still_ocr :
  let doc := [mkPage (repeat 120%N 99 ++ [LF]) (of_string "scanned")] in
  (100 <= mean_length extracted doc)%Q
  /\ parse_pdf doc false = (parse_pdf_ocr doc, true).
Proof.
  split.
  - vm_compute. discriminate.
  - vm_compute. reflexivity.
Qed.

(** C5, amended. The OCR decision is a function of the document: with
    the length of a page taken as that of its extracted native text
    without the white space around it, an average over the first
    min(3, pageCount) pages below 100 selects the OCR path and an average
    of at least 100 selects the native path; a force-OCR flag selects the
    OCR path whatever the average. *)
Theorem ocr_decision (doc : Pdf) (force_ocr : bool) :
  (force_ocr = true -> parse_pdf doc force_ocr = (parse_pdf_ocr doc, true))
  /\ ((mean_length trimmed doc < 100)%Q ->
      parse_pdf doc force_ocr = (parse_pdf_ocr doc, true))
  /\ (force_ocr = false -> (100 <= mean_length trimmed doc)%Q ->
      parse_pdf doc force_ocr = (parse_pdf_text doc, false)).
Proof.
  unfold parse_pdf, detect_needs_ocr. rewrite avg_text_per_page_mean.
  repeat split.
  - now intros ->.
  - intros H. apply Qlt_bool_iff in H. rewrite H.
    now rewrite orb_true_r.
  - intros -> H. simpl.
    destruct (Qlt_bool (mean_length trimmed doc) 100) eqn:E; [|reflexivity].
    apply Qlt_bool_iff in E. exfalso. apply (Qlt_not_le _ _ E H).
Qed.

(** The scenario of the design document: two pages of 500 characters of
    native text each are read without OCR. *)
Lemma ocr_decision_witness :
  parse_pdf [mkPage (repeat 120%N 500) []; mkPage (repeat 120%N 500) []] false
  = (parse_pdf_text
       [mkPage (repeat 120%N 500) []; mkPage (repeat 120%N 500) []], false).
Proof.
  apply (proj2 (proj2 (ocr_decision
           [mkPage (repeat 120%N 500) []; mkPage (repeat 120%N 500) []]
           false))).
  - reflexivity.
  - vm_compute. discriminate.
Defined.


End DocumentFacts.

(* ================================================================== *)
(** * The entry pattern, step by step *)
(* ================================================================== *)

Module MatchSteps.
Import Py Re ReFacts.

(** ** Characters *)





Lemma ci_eq_refl (c : char) : ci_eq c c = true.
Proof. unfold ci_eq. now rewrite N.eqb_refl. Qed.





(** ** Steps of the matcher *)






(** ** What an accepted text looks like *)







(** ** Lists *)


Lemma forallb_rev (A : Type) (p : A -> bool) (l : list A) :
  forallb p (rev l) = forallb p l.
Proof.
  induction l as [|x l IH]; simpl; [reflexivity|].
  rewrite forallb_app, IH. simpl. rewrite andb_true_r. apply andb_comm.
Qed.




(** ** Why a label is not found inside a field *)






(** A text the letters of a label match. *)
Definition spelled (l x : str) : Prop :=
  Forall2 (fun c y => ci_eq c y = true) l x.























(** ** The steps of an entry *)










(** ** An entry as a whole *)








(** ** Stripping *)




(** ** The matches of a log *)



Import Models Parser Synthetic.















(** ** The header lines *)












(** ** The document block *)










(** ** Asterisks *)

Lemma replace_star (s : str) : replace star [] s = no_star s.
Proof.
  unfold replace. induction s as [|c s IH]; [reflexivity|].
  cbn [replace_from]. change star with [42%N] in *.
  cbn [startswith length pred]. rewrite andb_true_r, IH.
  cbn [no_star filter app]. fold (no_star s).
  rewrite (N.eqb_sym c 42). now destruct (N.eqb 42 c).
Qed.

(** The first [k] characters of [s] are asterisks. *)
Fixpoint leading_stars (k : nat) (s : str) : Prop :=
  match k, s with
  | O, _ => True
  | S k', c :: s' => c = 42%N /\ leading_stars k' s'
  | S _, [] => False
  end.

Lemma no_star_replace_star2 (s : str) :
  forall skip, leading_stars skip s ->
  no_star (replace_from star2 [] skip s) = no_star s.
Proof.
  induction s as [|c s IH]; intros skip H; [reflexivity|].
  destruct skip as [|n].
  - cbn [replace_from].
    destruct (startswith star2 (c :: s)) eqn:E.
    + change star2 with [42%N; 42%N] in E. cbn [startswith] in E.
      apply andb_prop in E. destruct E as (E1 & E2).
      apply N.eqb_eq in E1. subst c.
      simpl length. cbn [pred app]. rewrite IH.
      * reflexivity.
      * destruct s as [|c' s']; [discriminate|].
        cbn [startswith] in E2. apply andb_prop in E2.
        destruct E2 as (E2 & _). apply N.eqb_eq in E2. now split.
    + cbn [no_star filter]. fold (no_star s).
      fold (no_star (replace_from star2 [] 0 s)).
      now rewrite IH.
  - destruct H as (-> & H). cbn [replace_from]. rewrite (IH n H).
    reflexivity.
Qed.

(** The two [replace] calls remove every asterisk, and nothing else. *)
Lemma clean_no_star (s : str) : clean s = no_star s.
Proof.
  unfold clean. rewrite replace_star. unfold replace.
  now apply no_star_replace_star2.
Qed.





(** ** The conditions, as the proofs use them *)




End MatchSteps.

(* ================================================================== *)
(** * The round trip of a synthetic response *)
(* ================================================================== *)

Module RoundTrip.
Import Py Re Models Parser Synthetic MatchSteps.

(** The scenario of the design document. *)
Definition jordan : PHIReplacement :=
  mkPHIReplacement (of_string "Name") (of_string "Patient name")
    (of_string "Jordan Lee") (of_string "[PATIENT_NAME]").

Definition seen_today : str :=
  of_string "Patient [PATIENT_NAME] was seen today.".

Example scenario_is_synthetic :
  synthetic [jordan] seen_today
  = of_string "BLOCK 1 - PHI REPLACEMENT LOG" ++ [LF]
    ++ of_string "Category: Name Original token: Patient name Replacement: Jordan Lee Consistency key: [PATIENT_NAME]"
    ++ [LF]
    ++ of_string "BLOCK 2 - DE-IDENTIFIED DOCUMENT" ++ [LF]
    ++ of_string "Patient [PATIENT_NAME] was seen today.".
Proof. reflexivity. Qed.




End RoundTrip.

(* ================================================================== *)
(** * Text extraction: what the loops keep *)
(* ================================================================== *)

Module ExtractionFacts.
Import Py DocumentParser DocumentFacts.

(** ** White space at the ends of a text *)

Lemma lstrip_nil_iff (s : str) : lstrip s = [] <-> forallb isspace s = true.
Proof.
  induction s as [|c s IH]; simpl; [tauto|].
  destruct (isspace c); simpl; [exact IH|]. split; discriminate.
Qed.

Lemma lstrip_all_space (s : str) :
  forallb isspace (lstrip s) = true -> lstrip s = [].
Proof.
  induction s as [|c s IH]; simpl; [reflexivity|].
  destruct (isspace c) eqn:E; [exact IH|].
  simpl. rewrite E. discriminate.
Qed.

(** A text strips to nothing exactly when it is white space throughout. *)
Lemma strip_nil_iff (s : str) : strip s = [] <-> forallb isspace s = true.
Proof.
  unfold strip, rstrip. split.
  - intros H. apply (f_equal (@rev char)) in H.
    rewrite rev_involutive in H. simpl in H.
    apply lstrip_nil_iff in H. rewrite MatchSteps.forallb_rev in H.
    apply lstrip_nil_iff. now apply lstrip_all_space.
  - intros H. apply lstrip_nil_iff in H. rewrite H. reflexivity.
Qed.

Lemma strip_not_nil (s : str) (c : char) :
  In c s -> isspace c = false -> strip s <> [].
Proof.
  intros Hin Hc H. apply strip_nil_iff in H.
  rewrite forallb_forall in H. specialize (H c Hin). congruence.
Qed.

Lemma truthy_false (s : str) : truthy s = false <-> s = [].
Proof. destruct s; simpl; split; congruence. Qed.

Lemma lstrip_suffix (s : str) : exists u, s = u ++ lstrip s.
Proof.
  induction s as [|c s (u & IH)]; simpl; [now exists []|].
  destruct (isspace c); [|now exists []].
  exists (c :: u). simpl. now rewrite <- IH.
Qed.

Lemma lstrip_head (s : str) :
  match lstrip s with c :: _ => isspace c = false | [] => True end.
Proof.
  induction s as [|c s IH]; simpl; [exact I|].
  destruct (isspace c) eqn:E; [exact IH | exact E].
Qed.

Lemma lstrip_fixed (s : str) :
  match s with c :: _ => isspace c = false | [] => True end -> lstrip s = s.
Proof. destruct s as [|c s]; simpl; [reflexivity|]. now intros ->. Qed.

Lemma lstrip_idem (s : str) : lstrip (lstrip s) = lstrip s.
Proof. apply lstrip_fixed, lstrip_head. Qed.

(** Taking white space off the end keeps the head of a text. *)
Lemma lstrip_rstrip (s : str) :
  match s with c :: _ => isspace c = false | [] => True end ->
  lstrip (rstrip s) = rstrip s.
Proof.
  intros H. apply lstrip_fixed. unfold rstrip.
  destruct s as [|c s]; [exact I|].
  destruct (lstrip_suffix (rev (c :: s))) as (u & E).
  assert (Hn : lstrip (rev (c :: s)) <> []).
  { intros Hn. apply lstrip_nil_iff in Hn.
    rewrite MatchSteps.forallb_rev in Hn. simpl in Hn. rewrite H in Hn.
    discriminate. }
  apply (f_equal (@rev char)) in E. rewrite rev_involutive, rev_app_distr in E.
  destruct (rev (lstrip (rev (c :: s)))) as [|d r] eqn:Er.
  - apply (f_equal (@rev char)) in Er. rewrite rev_involutive in Er.
    contradiction.
  - simpl in E. injection E as <- _. exact H.
Qed.

Lemma strip_idem (s : str) : strip (strip s) = strip s.
Proof.
  unfold strip. rewrite (@lstrip_rstrip (lstrip s)) by apply lstrip_head.
  unfold rstrip. now rewrite rev_involutive, lstrip_idem.
Qed.

(** ** Word documents: which rows give a line *)

Lemma join_two (sep a b : str) (rest : list str) :
  join sep (a :: b :: rest) = a ++ sep ++ join sep (b :: rest).
Proof. reflexivity. Qed.

Lemma app_not_self (A : Type) (l : list A) (x : A) : l ++ [x] <> l.
Proof.
  intros H. apply (f_equal (@length A)) in H.
  rewrite length_app in H. simpl in H. lia.
Qed.

(** X1. In [parse_word], the loop over the rows of a table, whose body
    is [add_row], adds no line for a row exactly when the row has no cell,
    or one cell that is blank.  A row of two cells or more always adds a
    line, even when all its cells are blank: the line is then made of the
    separators alone. *)
Theorem row_line_dropped (text_parts : list str) (row : list str) :
  add_row text_parts row = text_parts
  <-> row = [] \/ exists cell, row = [cell] /\ strip cell = [].
Proof.
  unfold add_row.
  destruct row as [|a [|b rest]].
  - simpl. tauto.
  - simpl join. rewrite strip_idem.
    destruct (strip a) eqn:E; simpl.
    + split; [right; exists a; auto | reflexivity].
    + split.
      * intros H. now apply app_not_self in H.
      * intros [H|(cell & H & Hc)]; [discriminate|].
        injection H as <-. congruence.
  - cbn [map]. rewrite join_two.
    destruct (strip (strip a ++ of_string " | " ++ join (of_string " | ")
                       (strip b :: map strip rest))) eqn:E.
    + exfalso. revert E. apply strip_not_nil with (c := 124%N).
      * apply in_or_app. right. simpl. auto.
      * reflexivity.
    + simpl. split.
      * intros H. now apply app_not_self in H.
      * intros [H|(cell & H & _)]; discriminate.
Qed.

(** ** PDF documents *)

Lemma page_label_head (n : nat) : exists l, page_label n = 45%N :: l.
Proof. unfold page_label. simpl. eauto. Qed.

Lemma page_blocks_blank (read : Page -> str) (doc : Pdf) :
  Forall (fun p => strip (read p) = []) doc ->
  forall n, page_blocks read doc n = [].
Proof.
  induction 1 as [|p doc Hp _ IH]; intros n; simpl; [reflexivity|].
  rewrite Hp. simpl. apply IH.
Qed.

(** The blocks of a document with a page that is not blank start with a
    page label. *)
Lemma page_blocks_head (read : Page -> str) (doc : Pdf) :
  Exists (fun p => strip (read p) <> []) doc ->
  forall n, exists k rest, page_blocks read doc n = page_label k :: rest.
Proof.
  induction 1 as [p doc Hp|p doc _ IH]; intros n; simpl.
  - destruct (strip (read p)) eqn:E; [contradiction|]. simpl. eauto.
  - destruct (truthy (strip (read p))); simpl; eauto.
Qed.

Lemma join_head (sep p : str) (rest : list str) (c : char) (l : str) :
  p = c :: l -> exists t, join sep (p :: rest) = c :: t.
Proof. intros ->. destruct rest; simpl; eauto. Qed.

Lemma strip_head_kept (c : char) (s : str) :
  isspace c = false -> strip (c :: s) <> [].
Proof. intros H. apply strip_not_nil with (c := c); simpl; auto. Qed.

Lemma blank_or_not (read : Page -> str) (doc : Pdf) :
  Forall (fun p => strip (read p) = []) doc
  \/ Exists (fun p => strip (read p) <> []) doc.
Proof.
  induction doc as [|p doc [IH|IH]]; [now left| |right; now constructor 2].
  destruct (strip (read p)) eqn:E.
  - left. now constructor.
  - right. constructor. congruence.
Qed.

Lemma blocks_text_blank (read : Page -> str) (doc : Pdf) :
  strip (join [LF; LF] (page_blocks read doc 0)) = []
  <-> Forall (fun p => strip (read p) = []) doc.
Proof.
  split.
  - intros H. destruct (blank_or_not read doc) as [Hb|Hex]; [exact Hb|].
    exfalso.
    destruct (page_blocks_head read Hex 0) as (k & rest & E).
    destruct (page_label_head k) as (l & El).
    rewrite E in H.
    destruct (join_head [LF; LF] rest El) as (t & Et).
    rewrite Et in H. revert H. now apply strip_head_kept.
  - intros H. now rewrite page_blocks_blank.
Qed.

(** X2. The text [parse_pdf_text] returns is blank (empty once stripped)
    exactly when the native text of every page is blank, and the text
    [parse_pdf_ocr] returns is blank exactly when the OCR text of every
    page is blank: a page that is not blank always brings its label and
    its text. *)
Theorem pdf_text_blank_iff_pages_blank (doc : Pdf) :
  (strip (parse_pdf_text doc) = []
   <-> Forall (fun page => strip (get_text page) = []) doc)
  /\ (strip (parse_pdf_ocr doc) = []
      <-> Forall (fun page => strip (image_to_string page) = []) doc).
Proof. split; apply blocks_text_blank. Qed.

Lemma join_length_in (sep : str) (parts : list str) (x : str) :
  In x parts -> length x <= length (join sep parts).
Proof.
  induction parts as [|p parts IH]; simpl; [tauto|].
  intros [->|H].
  - destruct parts; [lia|]. rewrite length_app. lia.
  - specialize (IH H). destruct parts as [|q parts]; [destruct H|].
    rewrite !length_app. lia.
Qed.

Lemma page_blocks_in (read : Page -> str) (doc : Pdf) (p : Page) :
  In p doc -> strip (read p) <> [] ->
  forall n, In (strip (read p)) (page_blocks read doc n).
Proof.
  induction doc as [|q doc IH]; simpl; [tauto|].
  intros [->|H] Hp n; apply in_or_app.
  - left. destruct (strip (read p)); [contradiction|]. simpl. auto.
  - right. now apply IH.
Qed.

(** With a mean of 100 or more, one of the pages sampled has 100
    characters or more. *)
Lemma long_page (doc : Pdf) :
  detect_needs_ocr doc = false ->
  exists p, In p doc /\ 100 <= length (strip (get_text p)).
Proof.
  unfold detect_needs_ocr. rewrite avg_text_per_page_mean. intros H.
  assert (Hle : (100 <= mean_length trimmed doc)%Q).
  { apply Qnot_lt_le. intros Hlt. apply Qlt_bool_iff in Hlt. congruence. }
  clear H. unfold mean_length, trimmed in Hle.
  destruct doc as [|a [|b [|c d]]]; cbn [firstn map list_sum length] in Hle.
  - now apply Qle_bool_iff in Hle.
  - exists a. split; [now left|]. unfold Qle in Hle. simpl in Hle. lia.
  - unfold Qle in Hle. simpl in Hle.
    destruct (Nat.le_gt_cases 100 (length (strip (get_text a)))).
    + exists a. split; [now left | assumption].
    + exists b. split; [right; now left | lia].
  - unfold Qle in Hle. simpl in Hle.
    destruct (Nat.le_gt_cases 100 (length (strip (get_text a)))).
    + exists a. split; [now left | assumption].
    + destruct (Nat.le_gt_cases 100 (length (strip (get_text b)))).
      * exists b. split; [right; now left | assumption].
      * exists c. split; [right; right; now left | lia].
Qed.

(** X3. When [parse_pdf] reports that OCR was not used, OCR was not
    forced, the text is that of [parse_pdf_text], and it holds 100
    characters at least: the native path never gives an empty text. *)
Theorem native_text_has_hundred_characters
    (doc : Pdf) (force_ocr : bool) (text : str) :
  parse_pdf doc force_ocr = (text, false) ->
  force_ocr = false /\ text = parse_pdf_text doc /\ 100 <= length text.
Proof.
  unfold parse_pdf. destruct force_ocr; simpl; [discriminate|].
  destruct (detect_needs_ocr doc) eqn:E; [discriminate|].
  intros H. injection H as <-. repeat split.
  destruct (long_page doc E) as (p & Hin & Hlen).
  unfold parse_pdf_text.
  etransitivity; [exact Hlen|].
  apply join_length_in. apply page_blocks_in; [exact Hin|].
  intros Hn. rewrite Hn in Hlen. simpl in Hlen. lia.
Qed.

Lemma native_text_has_hundred_characters_witness :
  let doc := [mkPage (repeat 120%N 500) []; mkPage (repeat 120%N 500) []] in
  100 <= length (parse_pdf_text doc).
Proof.
  intros doc.
  destruct (@native_text_has_hundred_characters doc false
              (parse_pdf_text doc))
    as (_ & _ & H); [vm_compute; reflexivity | exact H].
Defined.

(** X4. [detect_needs_ocr] reads the first three pages and nothing else:
    the decision for a document is the decision for its first three pages,
    and so is the OCR flag [parse_pdf] returns. *)
Theorem ocr_decision_reads_three_pages (doc : Pdf) :
  detect_needs_ocr doc = detect_needs_ocr (firstn 3 doc)
  /\ forall force_ocr,
       snd (parse_pdf doc force_ocr)
       = snd (parse_pdf (firstn 3 doc) force_ocr).
Proof.
  assert (E : detect_needs_ocr doc = detect_needs_ocr (firstn 3 doc)).
  { unfold detect_needs_ocr. rewrite !avg_text_per_page_mean.
    unfold mean_length. now rewrite firstn_firstn. }
  split; [exact E|]. intros force_ocr. unfold parse_pdf. rewrite <- E.
  now destruct (force_ocr || detect_needs_ocr doc)%bool.
Qed.

End ExtractionFacts.

(* ================================================================== *)
(** * The response parser: what it returns is in the response *)
(* ================================================================== *)

Module ParserInvariants.
Import Py Re Models Parser Synthetic ReFacts ParserFacts.

(** ** Contiguous pieces of a text *)

(** [f] is a contiguous piece of [s]. *)
Definition factor (f s : str) : Prop := exists u v, s = u ++ f ++ v.

Lemma factor_refl (s : str) : factor s s.
Proof. exists [], []. now rewrite app_nil_r. Qed.

Lemma factor_nil (s : str) : factor [] s.
Proof. now exists [], s. Qed.

Lemma factor_trans (a b c : str) : factor a b -> factor b c -> factor a c.
Proof.
  intros (u & v & ->) (u' & v' & ->).
  exists (u' ++ u), (v ++ v'). now rewrite <- !app_assoc.
Qed.

Lemma factor_prefix (p s : str) : factor p (p ++ s).
Proof. now exists [], s. Qed.

Lemma factor_suffix (p s : str) : factor s (p ++ s).
Proof. exists p, []. now rewrite app_nil_r. Qed.

Lemma factor_lstrip (s : str) : factor (lstrip s) s.
Proof.
  induction s as [|c s IH]; simpl; [apply factor_nil|].
  destruct (isspace c); [|apply factor_refl].
  eapply factor_trans; [exact IH | apply (factor_suffix [c])].
Qed.

Lemma factor_rev (a b : str) : factor a b -> factor (rev a) (rev b).
Proof.
  intros (u & v & ->). exists (rev v), (rev u).
  now rewrite !rev_app_distr, app_assoc.
Qed.

Lemma factor_strip (s : str) : factor (strip s) s.
Proof.
  unfold strip, rstrip.
  eapply factor_trans; [|apply factor_lstrip].
  rewrite <- (rev_involutive (lstrip s)) at 2.
  apply factor_rev, factor_lstrip.
Qed.

Lemma factor_no_star (f s : str) : factor f (no_star s) -> ~ In 42%N f.
Proof.
  intros (u & v & E) Hin.
  assert (H : In 42%N (no_star s)).
  { rewrite E. apply in_or_app. right. apply in_or_app. now left. }
  unfold no_star in H. apply filter_In in H. destruct H as (_ & H).
  discriminate.
Qed.

(** ** Groups hold pieces of the subject *)

Definition within (S : str) (g : groups) : Prop :=
  Forall (fun nv => factor (snd nv) S) g.

Lemma rmatch_within (r : regex) :
  forall (R : Type) (k : str -> groups -> option R) s g x,
  rmatch r k s g = Some x ->
  exists s' g' p,
    k s' g' = Some x /\ s = p ++ s'
    /\ forall S q, S = q ++ s -> within S g -> within S g'.
Proof.
  induction r as [|cs|a IHa b IHb|a IHa b IHb|gr cs|m a IHa|a IHa|];
    intros R k s g x H; simpl in H.
  - exists s, g, []. auto.
  - destruct s as [|c s]; [discriminate|].
    destruct (cmatch cs c); [|discriminate].
    exists s, g, [c]. auto.
  - destruct (IHa _ _ _ _ _ H) as (s1 & g1 & p1 & Hk & -> & H1).
    destruct (IHb _ _ _ _ _ Hk) as (s2 & g2 & p2 & Hk2 & -> & H2).
    exists s2, g2, (p1 ++ p2). repeat split; auto.
    + now rewrite app_assoc.
    + intros S q E Hw. apply (H2 S (q ++ p1)).
      * now rewrite <- app_assoc.
      * eapply H1; eauto.
  - destruct (rmatch a k s g) as [y|] eqn:Hy.
    + destruct (IHa _ _ _ _ _ Hy) as (s1 & g1 & p1 & Hk & E & H1).
      exists s1, g1, p1. repeat split; auto. congruence.
    + apply (IHb _ _ _ _ _ H).
  - assert (Hs : exists s', accepts (Star gr cs) s s' /\ k s' g = Some x).
    { destruct gr;
        [apply star_greedy_sound in H | apply star_lazy_sound in H];
        destruct H as (s' & Ha & Hk); eauto. }
    destruct Hs as (s' & Ha & Hk).
    destruct (accepts_suffix Ha) as (p & E).
    exists s', g, p. auto.
  - destruct (IHa _ _ _ _ _ H) as (s1 & g1 & p1 & Hk & -> & H1).
    exists s1, ((m, consumed (p1 ++ s1) s1) :: g1), p1. repeat split; auto.
    intros S q E Hw. constructor; [|eapply H1; eauto].
    simpl. rewrite consumed_app. exists q, s1. exact E.
  - destruct (rmatch a (fun _ g' => Some g') s g) as [g1|] eqn:Hy;
      [|discriminate].
    destruct (IHa _ _ _ _ _ Hy) as (s1 & g1' & p1 & Hk & E & H1).
    injection Hk as ->.
    exists s, g1, []. auto.
  - destruct s; [|discriminate]. exists [], g, []. auto.
Qed.

Lemma match_at_within (r : regex) (S q t : str) (m : Match) :
  S = q ++ t -> match_at r t = Some m -> within S (m_groups m).
Proof.
  intros E H. unfold match_at in H.
  destruct (rmatch_within _ _ _ _ H) as (s' & g' & p & Hk & _ & Hw).
  injection Hk as <-. simpl. apply (Hw S q E). constructor.
Qed.

Lemma group_within (S : str) (m : Match) (n : nat) (v : str) :
  within S (m_groups m) -> group m n = Some v -> factor v S.
Proof.
  unfold group, within. induction 1 as [|[k w] g Hw _ IH]; simpl;
    [discriminate|].
  destruct (Nat.eqb k n); [|exact IH]. now intros [= <-].
Qed.

Lemma search_within (r : regex) (S : str) (m : Match) (n : nat) (v : str) :
  search r S = Some m -> group m n = Some v -> factor v S.
Proof.
  intros Hs Hg. destruct (search_some _ _ Hs) as (u & t & E & Hm).
  eapply group_within; [|exact Hg]. eapply match_at_within; eauto.
Qed.

Lemma finditer_from_within (r : regex) :
  forall s skip q S, S = q ++ s ->
  Forall (fun m => within S (m_groups m)) (finditer_from r skip s).
Proof.
  induction s as [|c s IH]; intros skip q S E; simpl.
  - destruct skip; [|constructor].
    destruct (match_at r []) eqn:Hm; constructor; [|constructor].
    exact (@match_at_within r _ _ _ _ E Hm).
  - assert (E' : S = (q ++ [c]) ++ s) by now rewrite <- app_assoc.
    destruct skip; [|apply (IH _ _ _ E')].
    destruct (match_at r (c :: s)) eqn:Hm; [|apply (IH _ _ _ E')].
    constructor;
      [exact (@match_at_within r _ _ _ _ E Hm) | apply (IH _ _ _ E')].
Qed.

Lemma split_from_factor (r : regex) :
  forall s skip piece, skip = 0 \/ piece = [] ->
  Forall (fun x => factor x (piece ++ s)) (split_from r skip piece s).
Proof.
  induction s as [|c s IH]; intros skip piece H; simpl.
  - destruct skip; repeat constructor; apply factor_prefix.
  - destruct skip as [|n].
    + assert (Hnext : Forall (fun x => factor x (piece ++ c :: s))
                        (split_from r 0 (piece ++ [c]) s)).
      { specialize (IH 0 (piece ++ [c]) (or_introl eq_refl)).
        now rewrite <- app_assoc in IH. }
      destruct (match_at r (c :: s)) as [m|]; [|exact Hnext].
      destruct (m_len m) as [|k]; [exact Hnext|].
      constructor; [apply factor_prefix|].
      specialize (IH k [] (or_intror eq_refl)).
      eapply Forall_impl; [|exact IH]. simpl. intros x Hx.
      eapply factor_trans; [exact Hx|].
      exists (piece ++ [c]), []. now rewrite app_nil_r, <- app_assoc.
    + destruct H as [H| ->]; [discriminate|].
      specialize (IH n [] (or_intror eq_refl)).
      eapply Forall_impl; [|exact IH]. simpl. intros x Hx.
      eapply factor_trans; [exact Hx | apply (factor_suffix [c])].
Qed.

Lemma last_factor (parts : list str) (s : str) :
  Forall (fun x => factor x s) parts -> factor (last parts []) s.
Proof.
  induction 1 as [|x parts Hx _ IH]; [apply factor_nil|].
  destruct parts; [exact Hx | exact IH].
Qed.

(** ** The fields of the entries *)

(** [f] is a contiguous piece of [S] with no white space at its ends. *)
Definition piece_of (S f : str) : Prop := factor f S /\ strip f = f.

Lemma piece_of_trans (a b f : str) :
  piece_of a f -> factor a b -> piece_of b f.
Proof. intros (H & E) Hab. split; [exact (factor_trans H Hab) | exact E]. Qed.

Definition entry_within (S : str) (e : PHIReplacement) : Prop :=
  piece_of S (category e) /\ piece_of S (original_token e)
  /\ piece_of S (replacement e) /\ piece_of S (consistency_key e).

Lemma group_strip_within (S : str) (m : Match) (n : nat) (v : str) :
  within S (m_groups m) -> group_strip m n = Ok v -> piece_of S v.
Proof.
  unfold group_strip. intros Hw.
  destruct (group m n) as [t|] eqn:E; [|discriminate].
  intros [= <-]. split; [|apply ExtractionFacts.strip_idem].
  eapply factor_trans; [apply factor_strip|].
  eapply group_within; eauto.
Qed.

Lemma collect_entries_within (S : str) (ms : list Match) :
  Forall (fun m => within S (m_groups m)) ms ->
  forall log log', Forall (entry_within S) log ->
  collect_entries ms log = Ok log' -> Forall (entry_within S) log'.
Proof.
  induction 1 as [|m ms Hm _ IH]; intros log log' Hlog; simpl.
  - now intros [= <-].
  - destruct (group_strip m 1) as [c|] eqn:E1; [|discriminate].
    destruct (group_strip m 2) as [o|] eqn:E2; [|discriminate].
    destruct (group_strip m 3) as [r|] eqn:E3; [|discriminate].
    destruct (group_strip m 4) as [k|] eqn:E4; [|discriminate].
    simpl. apply IH. apply Forall_app. split; [exact Hlog|].
    constructor; [|constructor].
    repeat split; simpl; eapply group_strip_within; eauto.
Qed.


(** ** What the parser returns is taken from the response *)

Lemma document_part_within (response text : str) :
  match search doc_pattern (clean response) with
  | Some m => group_strip m 1
  | None =>
      if Nat.ltb 1 (length (split split_pattern (clean response)))
      then Ok (strip (last (split split_pattern (clean response)) []))
      else Ok response
  end = Ok text ->
  text = response \/ piece_of (clean response) text.
Proof.
  destruct (search doc_pattern (clean response)) as [m|] eqn:Hs.
  - intros H. right. eapply group_strip_within; [|exact H].
    destruct (search_some _ _ Hs) as (u & t & E & Hm).
    exact (@match_at_within doc_pattern _ _ _ _ E Hm).
  - destruct (Nat.ltb _ _); intros [= <-]; [right | now left].
    split; [|apply ExtractionFacts.strip_idem].
    eapply factor_trans; [apply factor_strip|].
    apply last_factor. unfold split.
    apply (@split_from_factor split_pattern (clean response) 0 []).
    now left.
Qed.

Lemma log_part_within (response : str) (log : list PHIReplacement) :
  match search log_pattern (clean response) with
  | Some m =>
      match group m 1 with
      | Some log_text => collect_entries (finditer entry_pattern log_text) []
      | None => Err AttributeError
      end
  | None => Ok []
  end = Ok log ->
  Forall (entry_within (clean response)) log.
Proof.
  destruct (search log_pattern (clean response)) as [m|] eqn:Hs;
    [|intros [= <-]; constructor].
  destruct (group m 1) as [log_text|] eqn:Hg; [|discriminate].
  intros H.
  pose proof (@search_within _ _ _ _ _ Hs Hg) as Hlog.
  assert (Hall : Forall (entry_within log_text) log).
  { eapply collect_entries_within; [|constructor|exact H].
    apply (@finditer_from_within entry_pattern log_text 0 [] log_text).
    reflexivity. }
  eapply Forall_impl; [|exact Hall].
  intros e (H1 & H2 & H3 & H4).
  split; [|split; [|split]]; eapply piece_of_trans; eauto.
Qed.

(** X5. [parse_llm_response] only extracts.  The anonymized text is the
    raw response itself or a contiguous piece of the response without its
    asterisks, with no white space at its ends; and every field of every
    entry of the log is such a piece.  So no field holds an asterisk, and
    no character is returned that the response does not hold. *)
Theorem parser_only_extracts
    (response : str) (log : list PHIReplacement) (text : str) :
  parse_llm_response response = Ok (log, text) ->
  (text = response \/ piece_of (no_star response) text)
  /\ Forall (entry_within (no_star response)) log.
Proof.
  unfold parse_llm_response. rewrite <- MatchSteps.clean_no_star.
  destruct (match search doc_pattern (clean response) with
            | Some m => group_strip m 1
            | None => _ end) as [t|e] eqn:Hdoc; [|discriminate].
  destruct (match search log_pattern (clean response) with
            | Some m => _
            | None => Ok [] end) as [l|e] eqn:Hlog; [|discriminate].
  simpl. intros [= <- <-]. split.
  - now apply document_part_within.
  - now apply log_part_within.
Qed.

(** Nothing the parser extracts holds an asterisk. *)
Lemma piece_no_star (response f : str) :
  piece_of (no_star response) f -> ~ In 42%N f.
Proof. intros (H & _). eapply factor_no_star; eauto. Qed.

Lemma parser_only_extracts_witness :
  let response :=
    of_string "BLOCK 1" ++ [LF]
    ++ of_string "Category: **Name** Original token: Patient name "
    ++ of_string "Replacement: Alex Doe Consistency key: [PATIENT_NAME]"
    ++ [LF] ++ of_string "BLOCK 2" ++ [LF] ++ of_string "Seen: *Alex Doe*." in
  (of_string "Seen: Alex Doe." = response
   \/ piece_of (no_star response) (of_string "Seen: Alex Doe."))
  /\ Forall (entry_within (no_star response))
       [mkPHIReplacement (of_string "Name") (of_string "Patient name")
          (of_string "Alex Doe") (of_string "[PATIENT_NAME]")].
Proof.
  intros response. apply parser_only_extracts. vm_compute. reflexivity.
Defined.

(** ** Asterisks do not matter *)

Lemma no_star_idem (s : str) : no_star (no_star s) = no_star s.
Proof.
  unfold no_star. induction s as [|c s IH]; simpl; [reflexivity|].
  destruct (negb (N.eqb c 42)) eqn:E; simpl; [rewrite E|]; now rewrite IH.
Qed.

Lemma split_from_nonempty (r : regex) :
  forall s skip piece, 1 <= length (split_from r skip piece s).
Proof.
  induction s as [|c s IH]; intros skip piece; simpl.
  - destruct skip; simpl; lia.
  - destruct skip; [|apply IH].
    destruct (match_at r (c :: s)) as [m|]; [|apply IH].
    destruct (m_len m); [apply IH|]. simpl. lia.
Qed.

(** A pattern that takes a character wherever it matches cuts the subject
    in two pieces at least, when it matches somewhere. *)
Lemma split_from_two (r : regex) :
  consuming r = true ->
  forall s piece u t m, s = u ++ t -> match_at r t = Some m ->
  1 < length (split_from r 0 piece s).
Proof.
  intros Hr. induction s as [|c s IH]; intros piece u t m E Hm.
  - symmetry in E. apply app_eq_nil in E. destruct E as (_ & ->).
    pose proof (consuming_match _ _ Hr Hm) as Hlen.
    destruct (match_at_accepts _ _ Hm) as (_ & _ & El).
    simpl in El. lia.
  - simpl. destruct (match_at r (c :: s)) as [m'|] eqn:Hc.
    + pose proof (consuming_match _ _ Hr Hc) as Hlen.
      destruct (m_len m') as [|n]; [lia|]. simpl.
      pose proof (split_from_nonempty r s n []). lia.
    + destruct u as [|c' u]; simpl in E.
      * subst t. congruence.
      * injection E as _ E. eapply IH; eauto.
Qed.

Lemma header_found (s : str) :
  search split_pattern s <> None ->
  1 < length (split split_pattern s).
Proof.
  intros H. destruct (search split_pattern s) as [m|] eqn:Hs; [|congruence].
  destruct (search_some _ _ Hs) as (u & t & E & Hm).
  unfold split. eapply split_from_two; eauto.
Qed.

(** X6. The asterisks of a response do not count.  When the response has
    a header line for the document block, parsing it and parsing it with
    its asterisks taken out give the same result; and in every case the
    two give the same replacement log. *)
Theorem asterisks_ignored (response : str) :
  (search split_pattern (clean response) <> None ->
   parse_llm_response (no_star response) = parse_llm_response response)
  /\ (forall log text,
      parse_llm_response response = Ok (log, text) ->
      exists text', parse_llm_response (no_star response) = Ok (log, text')).
Proof.
  unfold parse_llm_response.
  rewrite !MatchSteps.clean_no_star, no_star_idem.
  split.
  - intros H. apply header_found in H. apply Nat.ltb_lt in H.
    now rewrite H.
  - intros log text.
    destruct (search doc_pattern (no_star response)) as [m|].
    + eauto.
    + destruct (Nat.ltb 1 _); [eauto|]. simpl.
      destruct (match search log_pattern (no_star response) with
                | Some m => _ | None => Ok [] end) as [l|e]; simpl;
        [|discriminate].
      intros [= <- <-]. eauto.
Qed.

Lemma asterisks_ignored_witness :
  parse_llm_response
    (no_star (of_string "**BLOCK 2**" ++ [LF]
              ++ of_string "Seen: *Alex Doe*."))
  = parse_llm_response
      (of_string "**BLOCK 2**" ++ [LF] ++ of_string "Seen: *Alex Doe*.").
Proof.
  apply (proj1 (asterisks_ignored
                  (of_string "**BLOCK 2**" ++ [LF]
                   ++ of_string "Seen: *Alex Doe*."))).
  vm_compute. discriminate.
Defined.

(** ** No log header, no entries *)

Lemma log_pattern_starts_with_marker (s s' : str) :
  accepts log_pattern s s' -> exists s1, accepts log_marker s s1.
Proof. unfold log_pattern. cbn [seqs]. apply seq_accepts_head. Qed.

(** X7. Without a "BLOCK 1" or "PHI REPLACEMENT LOG" marker in the
    response, [parse_llm_response] returns an empty replacement log,
    whatever entries the response may hold. *)
Theorem no_log_header_no_entries (response : str) :
  search log_marker (clean response) = None ->
  exists text, parse_llm_response response = Ok ([], text).
Proof.
  intros H. unfold parse_llm_response.
  assert (Hlog : search log_pattern (clean response) = None).
  { apply search_none_intro. intros u t E.
    eapply match_at_none_prefix; [apply log_pattern_starts_with_marker|].
    eapply search_none; eauto. }
  rewrite Hlog.
  destruct (document_part_ok response) as (text & ->).
  simpl. eauto.
Qed.

Lemma no_log_header_no_entries_witness :
  exists text,
    parse_llm_response
      (of_string "Category: Name Original token: Patient name "
       ++ of_string "Replacement: Alex Doe Consistency key: [PATIENT_NAME]"
       ++ [LF] ++ of_string "BLOCK 2" ++ [LF] ++ of_string "Seen: Alex Doe.")
    = Ok ([], text).
Proof. apply no_log_header_no_entries. vm_compute. reflexivity. Defined.

End ParserInvariants.

(* ================================================================== *)
(** * Providers and the orchestrator: requests and calls *)
(* ================================================================== *)

Module ProviderFacts.
Import Py Models Config Service ServiceFacts.

(** ** Parameters a provider does not read *)

Definition with_max_tokens (p : LLMParameters) (v : option Z) : LLMParameters :=
  mkLLMParameters (temperature p) v (top_p p) (context_length p) (model_name p).

Definition with_context_length (p : LLMParameters) (v : option Z)
  : LLMParameters :=
  mkLLMParameters (temperature p) (max_tokens p) (top_p p) v (model_name p).

(** X8. The Ollama provider never reads [max_tokens]: with the provider
    "ollama" or "local", a run of [anonymize_text] is the same whatever
    that parameter is.  The hosted providers never read [context_length]:
    with "anthropic" or "openai" the run is the same whatever it is. *)
Theorem parameters_not_sent
    (prompt : str) (settings : Settings) (world : World)
    (text provider_name : str) (p : LLMParameters) (v : option Z)
    (st : state) :
  (lower provider_name = ollama \/ lower provider_name = local ->
   anonymize_text prompt settings world text provider_name
     (Some (with_max_tokens p v)) st
   = anonymize_text prompt settings world text provider_name (Some p) st)
  /\ (lower provider_name = anthropic \/ lower provider_name = openai ->
      anonymize_text prompt settings world text provider_name
        (Some (with_context_length p v)) st
      = anonymize_text prompt settings world text provider_name (Some p) st).
Proof.
  split.
  - intros H. unfold anonymize_text, mbind, time_time, lift.
    assert (E : get_provider settings provider_name
                = Ok (new_OllamaProvider (OLLAMA_BASE_URL settings)
                        (OLLAMA_MODEL settings))).
    { unfold get_provider. destruct H as [-> | ->]; reflexivity. }
    rewrite E. reflexivity.
  - intros H. unfold anonymize_text, mbind, time_time, lift.
    unfold get_provider.
    destruct H as [-> | ->]; simpl.
    + destruct (truthy (ANTHROPIC_API_KEY settings)); reflexivity.
    + destruct (truthy (OPENAI_API_KEY settings)); reflexivity.
Qed.

Lemma parameters_not_sent_witness :
  anonymize_text [] example_settings ok_world
    (of_string "Jane Roe, MRN 12345") (of_string "ollama")
    (Some (with_max_tokens
             (mkLLMParameters None (Some 500%Z) None None None)
             (Some 16000%Z))) st0
  = anonymize_text [] example_settings ok_world
      (of_string "Jane Roe, MRN 12345") (of_string "ollama")
      (Some (mkLLMParameters None (Some 500%Z) None None None)) st0.
Proof.
  apply (proj1 (parameters_not_sent [] example_settings ok_world
                  (of_string "Jane Roe, MRN 12345") (of_string "ollama")
                  (mkLLMParameters None (Some 500%Z) None None None)
                  (Some 16000%Z) st0)).
  now left.
Defined.

(** ** Parameters that went through validation *)

(** X28. Parameters within the bounds their fields are declared with
    are sent as they are: a hosted provider is called with the
    [max_tokens], [temperature] and [top_p] that are set (a temperature
    of 0 included) and with the default for each one that is not, and the
    options of Ollama carry a [context_length] that is set as [num_ctx].
    The test that replaces a [max_tokens] or a [context_length] of 0 is
    never met by such parameters. *)
Theorem validated_parameters_are_sent
    (prompt : str) (settings : Settings) (api_key model text : str)
    (p : LLMParameters) :
  validated p = true ->
  let request := chat_request_of prompt settings api_key model text (Some p) in
  chat_max_tokens request
  = match max_tokens p with
    | Some n => n
    | None => DEFAULT_MAX_TOKENS settings
    end
  /\ chat_temperature request
     = match temperature p with
       | Some t => t
       | None => DEFAULT_TEMPERATURE settings
       end
  /\ chat_top_p request
     = match top_p p with
       | Some t => t
       | None => DEFAULT_TOP_P settings
       end
  /\ forall n, context_length p = Some n ->
       ollama_options settings (Some p)
       = [(of_string "temperature",
           Float match temperature p with
                 | Some t => t
                 | None => DEFAULT_TEMPERATURE settings
                 end);
          (of_string "top_p",
           Float match top_p p with
                 | Some t => t
                 | None => DEFAULT_TOP_P settings
                 end);
          (of_string "num_ctx", Int n)].
Proof.
  unfold validated, between_Z. intros H. n_bools.
  split; [|split; [|split]].
  - unfold chat_request_of, or_default_Z. simpl.
    destruct (max_tokens p) as [n|]; [|reflexivity].
    n_bools. apply Z.leb_le in H2.
    destruct (Z.eqb_spec n 0); [lia | reflexivity].
  - unfold chat_request_of, or_default_Q. simpl.
    now destruct (temperature p).
  - unfold chat_request_of, or_default_Q. simpl.
    now destruct (top_p p).
  - intros n Hn. unfold ollama_options, or_default_Q. rewrite Hn in *.
    n_bools. apply Z.leb_le in H0.
    destruct (Z.eqb_spec n 0); [lia|].
    now destruct (temperature p), (top_p p).
Qed.

Lemma validated_parameters_are_sent_witness :
  let p := mkLLMParameters (Some 0%Q) (Some 100%Z) None (Some 512%Z) None in
  let request := chat_request_of [] example_settings (of_string "sk-test")
                   (of_string "claude-3-5-sonnet-20241022")
                   (of_string "Jane Roe, MRN 12345") (Some p) in
  chat_max_tokens request = 100%Z
  /\ chat_temperature request = 0%Q
  /\ chat_top_p request = 1%Q
  /\ forall n, context_length p = Some n ->
       ollama_options example_settings (Some p)
       = [(of_string "temperature", Float 0); (of_string "top_p", Float 1);
          (of_string "num_ctx", Int n)].
Proof.
  intros p request.
  apply (@validated_parameters_are_sent [] example_settings
           (of_string "sk-test") (of_string "claude-3-5-sonnet-20241022")
           (of_string "Jane Roe, MRN 12345") p).
  reflexivity.
Defined.

(** ** The base URL of Ollama *)

Lemma lstrip_char_app (x : char) (n : nat) (s : str) :
  lstrip_char x (repeat x n ++ s) = lstrip_char x s.
Proof.
  induction n as [|n IH]; simpl; [reflexivity|]. now rewrite N.eqb_refl.
Qed.

Lemma rev_repeat (A : Type) (x : A) (n : nat) : rev (repeat x n) = repeat x n.
Proof.
  induction n as [|n IH]; simpl; [reflexivity|].
  rewrite IH. symmetry. apply repeat_cons.
Qed.

Lemma rstrip_char_repeat (x : char) (n : nat) (s : str) :
  rstrip_char x (s ++ repeat x n) = rstrip_char x s.
Proof.
  unfold rstrip_char. now rewrite rev_app_distr, rev_repeat, lstrip_char_app.
Qed.

Lemma lstrip_char_head (x : char) (s : str) :
  match lstrip_char x s with c :: _ => c <> x | [] => True end.
Proof.
  induction s as [|c s IH]; simpl; [exact I|].
  destruct (N.eqb c x) eqn:E; [exact IH|]. now apply N.eqb_neq.
Qed.

Definition with_base_url (s : Settings) (url : str) : Settings :=
  mkSettings (ANTHROPIC_API_KEY s) (OPENAI_API_KEY s) url (OLLAMA_MODEL s)
    (DEFAULT_TEMPERATURE s) (DEFAULT_MAX_TOKENS s) (DEFAULT_TOP_P s)
    (DEFAULT_CONTEXT_LENGTH s).

(** X9. Slashes at the end of [OLLAMA_BASE_URL] do not count: the
    provider [get_provider] builds is the same with any number of them
    added, and the base URL of an Ollama provider it returns never ends
    with a slash. *)
Theorem base_url_trailing_slashes
    (settings : Settings) (url provider_name : str) (n : nat) :
  get_provider (with_base_url settings (url ++ repeat 47%N n)) provider_name
  = get_provider (with_base_url settings url) provider_name
  /\ forall base_url model_name,
       get_provider (with_base_url settings url) provider_name
       = Ok (OllamaProvider base_url model_name) ->
       forall b, base_url <> b ++ [47%N].
Proof.
  split.
  - unfold get_provider, new_OllamaProvider. simpl.
    now rewrite rstrip_char_repeat.
  - intros base_url model_name H b E.
    assert (Hb : base_url = rstrip_char 47%N url).
    { unfold get_provider, new_AnthropicProvider, new_OpenAIProvider,
        new_OllamaProvider in H. simpl in H.
      repeat match type of H with
             | (if ?c then _ else _) = _ => destruct c
             end; congruence. }
    rewrite Hb in E. unfold rstrip_char in E.
    apply (f_equal (@rev char)) in E.
    rewrite rev_involutive, rev_app_distr in E. simpl in E.
    pose proof (lstrip_char_head 47%N (rev url)) as Hh.
    rewrite E in Hh. now apply Hh.
Qed.

(** ** One call at most *)

(** A run makes no call, when the selection fails, or one call that
    carries the text; what it returns echoes the text. *)
Lemma anonymize_text_trace
    (prompt : str) (settings : Settings) (world : World)
    (text provider_name : str) (params : option LLMParameters)
    (st : state) :
  let r := fst (anonymize_text prompt settings world text provider_name
                  params st) in
  let st' := snd (anonymize_text prompt settings world text provider_name
                    params st) in
  (calls st' = calls st /\ (exists e, r = Err e)
   \/ exists c, calls st' = calls st ++ [c] /\ carries prompt c text)
  /\ forall res, r = Ok res -> original_text res = Some text.
Proof.
  unfold anonymize_text, mbind, time_time, lift, ret. simpl.
  destruct (get_provider settings provider_name) as [provider|e];
    [|split; [left; simpl; eauto | discriminate]].
  destruct (anonymize_calls_once prompt settings world provider text params
              (mkState (calls st) (S (readings st))))
    as (c & Hc & _ & Hcar).
  assert (Hone : forall s, calls s = calls st ++ [c] ->
            exists c, calls s = calls st ++ [c] /\ carries prompt c text)
    by (intros s Hs; exists c; auto).
  destruct (anonymize prompt settings world provider text params _)
    as [[[raw used]|e] st1]; simpl in *;
    [|split; [right; now apply Hone | discriminate]].
  destruct (Parser.parse_llm_response raw) as [[log anon]|e]; simpl;
    (split; [right; now apply Hone|]); [|discriminate].
  now intros res [= <-].
Qed.

(** X10. A run of [anonymize_text] makes one network call at most,
    whatever its outcome, and the call, when there is one, carries the
    text between the document markers; there is no second attempt. *)
Theorem at_most_one_call
    (prompt : str) (settings : Settings) (world : World)
    (text provider_name : str) (params : option LLMParameters)
    (st : state) :
  let st' := snd (anonymize_text prompt settings world text provider_name
                    params st) in
  calls st' = calls st
  \/ exists c, calls st' = calls st ++ [c] /\ carries prompt c text.
Proof.
  destruct (anonymize_text_trace prompt settings world text provider_name
              params st) as ([(H & _)|H] & _); [now left | now right].
Qed.

(** ** The provider a result names *)

(** X11. The [provider_used] of a result is the name that was asked
    for, in small letters, except that "local" is reported as
    "ollama". *)
Theorem provider_used_is_the_provider
    (prompt : str) (settings : Settings) (world : World)
    (text provider_name : str) (params : option LLMParameters)
    (st st' : state) (res : AnonymizationResult) :
  anonymize_text prompt settings world text provider_name params st
  = (Ok res, st') ->
  provider_used res
  = if str_eqb (lower provider_name) local then ollama
    else lower provider_name.
Proof.
  unfold anonymize_text, mbind, time_time, lift, ret, get_provider.
  destruct (str_eqb (lower provider_name) (of_string "anthropic")) eqn:E1;
    [apply str_eqb_eq in E1|].
  { rewrite E1. destruct (negb _); [discriminate|]. simpl.
    unfold AnthropicProvider_anonymize, mbind, perform, lift, ret.
    destruct (anthropic_create world _) as [content|e]; [|discriminate].
    destruct (first_of content); [|discriminate]. simpl.
    destruct (Parser.parse_llm_response _) as [[log anon]|e]; [|discriminate].
    now intros [= <- _]. }
  destruct (str_eqb (lower provider_name) (of_string "openai")) eqn:E2;
    [apply str_eqb_eq in E2|].
  { rewrite E2. destruct (negb _); [discriminate|]. simpl.
    unfold OpenAIProvider_anonymize, mbind, perform, lift, ret.
    destruct (openai_create world _) as [content|e]; [|discriminate].
    destruct (first_of content); [|discriminate]. simpl.
    destruct (Parser.parse_llm_response _) as [[log anon]|e]; [|discriminate].
    now intros [= <- _]. }
  destruct (str_eqb (lower provider_name) (of_string "ollama")
            || str_eqb (lower provider_name) (of_string "local"))%bool eqn:E3;
    [|discriminate].
  simpl. unfold OllamaProvider_anonymize, mbind, perform, raise, ret.
  destruct (http_post world _) as [response|e]; [|discriminate].
  destruct (negb _); [discriminate|].
  destruct (json response); [|discriminate]. simpl.
  destruct (Parser.parse_llm_response _) as [[log anon]|e]; [|discriminate].
  intros [= <- _]. simpl.
  apply orb_prop in E3. destruct E3 as [E3|E3].
  - apply str_eqb_eq in E3. now rewrite E3.
  - unfold local. now rewrite E3.
Qed.

Lemma provider_used_is_the_provider_witness :
  exists res st',
    anonymize_text [] example_settings ok_world
      (of_string "Jane Roe, MRN 12345") (of_string "Local") None st0
    = (Ok res, st')
    /\ provider_used res = ollama.
Proof.
  eexists. eexists.
  assert (E : forall r s,
    r = fst (anonymize_text [] example_settings ok_world
               (of_string "Jane Roe, MRN 12345") (of_string "Local") None st0) ->
    s = snd (anonymize_text [] example_settings ok_world
               (of_string "Jane Roe, MRN 12345") (of_string "Local") None st0) ->
    anonymize_text [] example_settings ok_world
      (of_string "Jane Roe, MRN 12345") (of_string "Local") None st0 = (r, s)).
  { intros r s -> ->. apply surjective_pairing. }
  split.
  - apply E; vm_compute; reflexivity.
  - eapply (@provider_used_is_the_provider [] example_settings ok_world
              (of_string "Jane Roe, MRN 12345") (of_string "Local") None st0).
    apply E; vm_compute; reflexivity.
Defined.

(** ** An Ollama answer without a response *)

(** X12. When Ollama answers with status 200 and a JSON object that has
    no "response" member, or an empty one, [anonymize_text] raises nothing:
    it returns a result with an empty anonymized text and an empty log,
    the provider "ollama", the time between the two readings of the clock
    and the original text. *)
Theorem ollama_without_response_member
    (prompt : str) (settings : Settings) (world : World)
    (text provider_name : str) (params : option LLMParameters)
    (st : state) (response : http_response) (body : list (str * str)) :
  lower provider_name = ollama \/ lower provider_name = local ->
  http_post world
    (ollama_request prompt settings
       (rstrip_char 47%N (OLLAMA_BASE_URL settings)) (OLLAMA_MODEL settings)
       text params)
  = Ok response ->
  status_code response = 200%Z ->
  json response = Some body ->
  dict_get (of_string "response") body [] = [] ->
  exists st',
    anonymize_text prompt settings world text provider_name params st
    = (Ok (mkAnonymizationResult [] [] ollama
             (Qminus (clock world (S (readings st)))
                     (clock world (readings st)))
             (Some text)), st').
Proof.
  intros Hname Hpost Hstatus Hjson Hget.
  unfold anonymize_text, mbind, time_time, lift, ret.
  assert (E : get_provider settings provider_name
              = Ok (new_OllamaProvider (OLLAMA_BASE_URL settings)
                      (OLLAMA_MODEL settings))).
  { unfold get_provider. destruct Hname as [-> | ->]; reflexivity. }
  rewrite E. simpl.
  unfold OllamaProvider_anonymize, mbind, perform, raise, ret.
  rewrite Hpost, Hstatus, Hjson, Hget. simpl. eauto.
Qed.

Lemma ollama_without_response_member_witness :
  exists st',
    anonymize_text [] example_settings
      (world_answering (mkHttp 200 (of_string "{}") (Some [])))
      (of_string "Jane Roe, MRN 12345") (of_string "ollama") None st0
    = (Ok (mkAnonymizationResult [] [] ollama 1%Q
             (Some (of_string "Jane Roe, MRN 12345"))), st').
Proof.
  apply (@ollama_without_response_member [] example_settings
           (world_answering (mkHttp 200 (of_string "{}") (Some [])))
           (of_string "Jane Roe, MRN 12345") (of_string "ollama") None st0
           (mkHttp 200 (of_string "{}") (Some [])) []);
    try reflexivity.
  now left.
Defined.

End ProviderFacts.

(* ================================================================== *)
(** * The temporary files *)
(* ================================================================== *)

Module FileHandlerFacts.
Import Py Models Config Service DocumentParser FileHandler.
Import ServiceFacts.

(** ** File names *)

Lemma upto_absent (x : char) (s : str) : ~ In x s -> upto x s = s.
Proof.
  induction s as [|c s IH]; simpl; intros H; [reflexivity|].
  destruct (N.eqb c x) eqn:E.
  - apply N.eqb_eq in E. exfalso. apply H. now left.
  - rewrite IH; [reflexivity|]. intros Hin. apply H. now right.
Qed.

Lemma upto_free (x : char) (s : str) : ~ In x (upto x s).
Proof.
  induction s as [|c s IH]; simpl; [tauto|].
  destruct (N.eqb c x) eqn:E; simpl; [tauto|].
  apply N.eqb_neq in E. intros [H|H]; [congruence | contradiction].
Qed.

Lemma basename_no_slash (p : str) : ~ In 47%N (basename p).
Proof.
  unfold basename. rewrite <- in_rev. apply upto_free.
Qed.

Lemma basename_fixed (p : str) : ~ In 47%N p -> basename p = p.
Proof.
  intros H. unfold basename. rewrite upto_absent.
  - apply rev_involutive.
  - now rewrite <- in_rev.
Qed.

(** The characters [sanitize_filename] lets through. *)
Definition allowed (host : Host) (c : char) : bool :=
  (isalnum host c || existsb (N.eqb c) (of_string "._- "))%bool.

Lemma filter_fixed (A : Type) (p : A -> bool) (l : list A) :
  Forall (fun x => p x = true) l -> filter p l = l.
Proof.
  induction 1 as [|x l Hx _ IH]; simpl; [reflexivity|].
  now rewrite Hx, IH.
Qed.

Lemma filter_Forall (A : Type) (p : A -> bool) (l : list A) :
  Forall (fun x => p x = true) (filter p l).
Proof.
  induction l as [|x l IH]; simpl; [constructor|].
  destruct (p x) eqn:E; [constructor|]; auto.
Qed.

Lemma Forall_firstn (A : Type) (P : A -> Prop) (n : nat) (l : list A) :
  Forall P l -> Forall P (firstn n l).
Proof.
  intros H. rewrite Forall_forall in *. intros x Hx. apply H.
  rewrite <- (firstn_skipn n l). apply in_or_app. now left.
Qed.

Lemma sanitize_allowed (host : Host) (filename : str) :
  Forall (fun c => allowed host c = true) (sanitize_filename host filename).
Proof. unfold sanitize_filename. apply Forall_firstn, filter_Forall. Qed.

Lemma allowed_ascii (host : Host) (c : char) :
  (c < 128)%N -> allowed host c = true ->
  between 48 57 c = true \/ between 65 90 c = true \/ between 97 122 c = true
  \/ c = 46%N \/ c = 95%N \/ c = 45%N \/ c = 32%N.
Proof.
  intros Hc. unfold allowed, isalnum. apply N.ltb_lt in Hc. rewrite Hc.
  simpl. intros H. n_bools; auto 10.
  discriminate.
Qed.

Lemma sanitize_length (host : Host) (filename : str) :
  length (sanitize_filename host filename) <= 255.
Proof. unfold sanitize_filename. rewrite length_firstn. lia. Qed.

Lemma sanitize_excludes (host : Host) (filename : str) (c : char) :
  allowed host c = false -> ~ In c (sanitize_filename host filename).
Proof.
  intros Hf Hin.
  pose proof (sanitize_allowed host filename) as Hall.
  rewrite Forall_forall in Hall. rewrite (Hall c Hin) in Hf. discriminate.
Qed.

(** X13. The name [sanitize_filename] returns has 255 characters at
    most; its ASCII characters are digits, letters, dots, underscores,
    hyphens and spaces; and it holds no slash, no backslash and no NUL. *)
Theorem sanitize_filename_safe (host : Host) (filename : str) :
  let safe := sanitize_filename host filename in
  length safe <= 255
  /\ (forall c, In c safe -> (c < 128)%N ->
        between 48 57 c = true \/ between 65 90 c = true
        \/ between 97 122 c = true
        \/ c = 46%N \/ c = 95%N \/ c = 45%N \/ c = 32%N)
  /\ ~ In 47%N safe /\ ~ In 92%N safe /\ ~ In 0%N safe.
Proof.
  intros safe.
  split; [|split; [|split; [|split]]].
  - apply sanitize_length.
  - intros c Hin Hc. apply (allowed_ascii host Hc).
    pose proof (sanitize_allowed host filename) as Hall.
    rewrite Forall_forall in Hall. now apply Hall.
  - now apply sanitize_excludes.
  - now apply sanitize_excludes.
  - now apply sanitize_excludes.
Qed.

(** X14. [sanitize_filename] is idempotent: a sanitized name is left as
    it is. *)
Theorem sanitize_filename_idempotent (host : Host) (filename : str) :
  sanitize_filename host (sanitize_filename host filename)
  = sanitize_filename host filename.
Proof.
  unfold sanitize_filename at 1.
  rewrite basename_fixed by now apply sanitize_excludes.
  rewrite filter_fixed by apply sanitize_allowed.
  apply firstn_all2, sanitize_length.
Qed.

(** ** Dictionaries *)

Section DictFacts.
Variable V : Type.
Implicit Types (d : list (str * V)) (k : str) (v : V).

Lemma str_eqb_refl (a : str) : str_eqb a a = true.
Proof. now apply str_eqb_eq. Qed.

Lemma lookup_pop_same k d : dict_lookup k (dict_pop k d) = None.
Proof.
  unfold dict_pop. induction d as [|[k' v'] d IH]; simpl; [reflexivity|].
  destruct (str_eqb k' k) eqn:E; simpl; [exact IH|]. now rewrite E.
Qed.

Lemma lookup_pop_other k k' d :
  k' <> k -> dict_lookup k' (dict_pop k d) = dict_lookup k' d.
Proof.
  intros Hne. unfold dict_pop.
  induction d as [|[k0 v0] d IH]; simpl; [reflexivity|].
  destruct (str_eqb k0 k) eqn:E; simpl.
  - apply str_eqb_eq in E. subst k0. rewrite IH.
    rewrite str_eqb_neq; [reflexivity|]. congruence.
  - now rewrite IH.
Qed.

Lemma pop_absent k d : dict_lookup k d = None -> dict_pop k d = d.
Proof.
  unfold dict_pop. induction d as [|[k' v'] d IH]; simpl; [reflexivity|].
  destruct (str_eqb k' k); [discriminate|]. simpl. intros H. now rewrite IH.
Qed.

Lemma lookup_store_same k v d : dict_lookup k (dict_store k v d) = Some v.
Proof.
  induction d as [|[k' v'] d IH]; simpl.
  - now rewrite str_eqb_refl.
  - destruct (str_eqb k' k) eqn:E; simpl.
    + now rewrite str_eqb_refl.
    + now rewrite E.
Qed.

Lemma lookup_store_other k k' v d :
  k' <> k -> dict_lookup k' (dict_store k v d) = dict_lookup k' d.
Proof.
  intros Hne. induction d as [|[k0 v0] d IH]; simpl.
  - rewrite str_eqb_neq; [reflexivity | congruence].
  - destruct (str_eqb k0 k) eqn:E; simpl.
    + apply str_eqb_eq in E. subst k0.
      rewrite str_eqb_neq; [reflexivity | congruence].
    + now rewrite IH.
Qed.

Lemma pop_store k v d :
  dict_lookup k d = None -> dict_pop k (dict_store k v d) = d.
Proof.
  unfold dict_pop. induction d as [|[k' v'] d IH]; simpl.
  - now rewrite str_eqb_refl.
  - destruct (str_eqb k' k) eqn:E; [discriminate|].
    simpl. rewrite E. simpl. intros H. now rewrite IH.
Qed.

Lemma pop_pop k k' d : dict_pop k (dict_pop k' d) = dict_pop k' (dict_pop k d).
Proof.
  unfold dict_pop. induction d as [|[k0 v0] d IH]; simpl; [reflexivity|].
  destruct (str_eqb k0 k') eqn:E1, (str_eqb k0 k) eqn:E2; simpl;
    rewrite ?E1, ?E2; simpl; now rewrite IH.
Qed.

Lemma lookup_In k v d : dict_lookup k d = Some v -> In (k, v) d.
Proof.
  induction d as [|[k' v'] d IH]; simpl; [discriminate|].
  destruct (str_eqb k' k) eqn:E.
  - apply str_eqb_eq in E. intros [= <-]. left. now subst.
  - intros H. right. now apply IH.
Qed.

(** In a dictionary, a key has one value. *)
Lemma In_lookup k v d :
  NoDup (map fst d) -> In (k, v) d -> dict_lookup k d = Some v.
Proof.
  induction d as [|[k' v'] d IH]; simpl; [tauto|].
  intros Hnd. inversion Hnd as [|? ? Hnot Hnd']; subst.
  intros [[= -> ->]|Hin].
  - now rewrite str_eqb_refl.
  - destruct (str_eqb k' k) eqn:E.
    + apply str_eqb_eq in E. subst k'. exfalso. apply Hnot.
      change k with (fst (k, v)). now apply in_map.
    + now apply IH.
Qed.

Lemma store_store k v w d :
  dict_store k v (dict_store k w d) = dict_store k v d.
Proof.
  induction d as [|[k' v'] d IH]; simpl.
  - now rewrite str_eqb_refl.
  - destruct (str_eqb k' k) eqn:E; simpl.
    + now rewrite str_eqb_refl.
    + now rewrite E, IH.
Qed.

Lemma store_same k v d : dict_lookup k d = Some v -> dict_store k v d = d.
Proof.
  induction d as [|[k' v'] d IH]; simpl; [discriminate|].
  destruct (str_eqb k' k) eqn:E.
  - apply str_eqb_eq in E. intros [= ->]. now subst.
  - intros H. now rewrite IH.
Qed.

Lemma pop_store_any k v d : dict_pop k (dict_store k v d) = dict_pop k d.
Proof.
  unfold dict_pop. induction d as [|[k' v'] d IH]; simpl.
  - now rewrite str_eqb_refl.
  - destruct (str_eqb k' k) eqn:E; simpl.
    + now rewrite str_eqb_refl.
    + now rewrite E, IH.
Qed.

End DictFacts.


(** ** Cleaning up *)

(** Whatever the disk does, [cleanup_file] returns, and takes the
    identifier out of the dictionary. *)
Lemma cleanup_file_store (host : Host) (file_id : str) (sv : server) :
  (exists b, fst (cleanup_file host file_id sv) = Returned b)
  /\ temp_files (snd (cleanup_file host file_id sv))
     = dict_pop file_id (temp_files sv)
  /\ service (snd (cleanup_file host file_id sv)) = service sv.
Proof.
  unfold cleanup_file.
  destruct (dict_lookup file_id (temp_files sv)) as [tf|] eqn:E.
  - destruct (path_exists _ _); [|simpl; eauto].
    unfold unlink, iobind, disk_op, update_disk. simpl.
    destruct (os_error host (ops sv)); simpl; eauto.
  - simpl. rewrite pop_absent by exact E. eauto.
Qed.

(** X15. [cleanup_file] never raises.  After it, the identifier has no
    entry in the dictionary of temporary files, whether the deletion on
    disk worked or not, and every other identifier has the entry it had.
    It returns [True] only when the identifier had an entry whose file
    existed, and the file then exists no more. *)
Theorem cleanup_file_forgets (host : Host) (file_id : str) (sv : server) :
  let r := fst (cleanup_file host file_id sv) in
  let sv' := snd (cleanup_file host file_id sv) in
  (exists deleted, r = Returned deleted)
  /\ get_temp_file file_id sv' = None
  /\ (forall other, other <> file_id ->
       get_temp_file other sv' = get_temp_file other sv)
  /\ (r = Returned true ->
      exists temp_file,
        get_temp_file file_id sv = Some temp_file
        /\ path_exists (file_path temp_file) sv = true
        /\ path_exists (file_path temp_file) sv' = false).
Proof.
  intros r sv'. subst r sv'.
  destruct (cleanup_file_store host file_id sv) as (Hr & Hs & _).
  unfold get_temp_file. rewrite Hs.
  split; [exact Hr|]. split; [apply lookup_pop_same|].
  split; [intros other Hne; now apply lookup_pop_other|].
  unfold cleanup_file.
  destruct (dict_lookup file_id (temp_files sv)) as [tf|] eqn:E;
    [|discriminate].
  unfold path_exists at 1. simpl.
  destruct (dict_lookup (file_path tf) (disk sv)) eqn:Ed; [|discriminate].
  unfold unlink, iobind, disk_op, update_disk. simpl.
  destruct (os_error host (ops sv)); simpl; [discriminate|].
  intros _. exists tf. repeat split.
  - unfold path_exists. now rewrite Ed.
  - unfold path_exists. simpl. rewrite Ed. simpl. now rewrite lookup_pop_same.
Qed.

Lemma cleanup_files_store (host : Host) (ids : list str) :
  forall sv,
  fst (cleanup_files host ids sv) = Returned tt
  /\ temp_files (snd (cleanup_files host ids sv))
     = filter (fun kv => negb (existsb (str_eqb (fst kv)) ids))
         (temp_files sv)
  /\ service (snd (cleanup_files host ids sv)) = service sv.
Proof.
  induction ids as [|k ids IH]; intros sv; simpl.
  - repeat split. symmetry. apply filter_fixed.
    apply Forall_forall. auto.
  - unfold iobind.
    destruct (cleanup_file_store host k sv) as ((b & Hb) & Hs & Hv).
    destruct (cleanup_file host k sv) as [r sv1]. simpl in *. subst r.
    destruct (IH sv1) as (H1 & H2 & H3).
    split; [exact H1|]. split; [|congruence].
    rewrite H2, Hs. unfold dict_pop.
    clear. induction (temp_files sv) as [|[k' v'] d IHd]; simpl;
      [reflexivity|].
    destruct (str_eqb k' k); simpl; [exact IHd|].
    destruct (existsb (str_eqb k') ids); simpl; now rewrite IHd.
Qed.

(** The keys of the entries that satisfy [p], in a dictionary. *)
Lemma key_selected (V : Type) (p : V -> bool) (d : list (str * V)) :
  NoDup (map fst d) ->
  forall kv, In kv d ->
  existsb (str_eqb (fst kv)) (map fst (filter (fun kv => p (snd kv)) d))
  = p (snd kv).
Proof.
  intros Hnd [k v] Hin. simpl.
  destruct (p v) eqn:Hp.
  - apply existsb_exists. exists k. split; [|apply str_eqb_refl].
    change k with (fst (k, v)). apply in_map. apply filter_In. now split.
  - destruct (existsb _ _) eqn:Hex; [|reflexivity].
    apply existsb_exists in Hex. destruct Hex as (k' & Hk' & Heq).
    apply str_eqb_eq in Heq. subst k'.
    apply in_map_iff in Hk'. destruct Hk' as ([k1 v1] & Hfst & Hf).
    simpl in Hfst. subst k1. apply filter_In in Hf.
    destruct Hf as (Hin1 & Hp1). simpl in Hp1.
    pose proof (@In_lookup _ _ _ _ Hnd Hin) as L.
    pose proof (@In_lookup _ _ _ _ Hnd Hin1) as L1.
    congruence.
Qed.

(** X16. [cleanup_old_files] returns normally and leaves in the
    dictionary (whose keys are distinct, as those of a Python dictionary
    are) exactly the entries whose age, at the time it read the clock, is
    at most [TEMP_FILE_TTL], in their order; an entry older than that is
    dropped even when its file cannot be deleted. *)
Theorem cleanup_old_files_keeps_fresh
    (world : World) (upload_settings : UploadSettings) (host : Host)
    (sv : server) :
  NoDup (map fst (temp_files sv)) ->
  let current_time := clock world (readings (service sv)) in
  let sv' := snd (cleanup_old_files world upload_settings host sv) in
  fst (cleanup_old_files world upload_settings host sv) = Returned tt
  /\ temp_files sv'
     = filter (fun kv => negb (expired upload_settings current_time (snd kv)))
         (temp_files sv).
Proof.
  intros Hnd current_time sv'. subst sv'.
  unfold cleanup_old_files, iobind, time_time, lift_service, Service.time_time.
  simpl. fold current_time.
  match goal with
  | |- context [cleanup_files host ?ids ?s] =>
      destruct (cleanup_files_store host ids s) as (H1 & H2 & _)
  end.
  split; [exact H1|]. rewrite H2. simpl.
  apply filter_ext_in. intros kv Hin.
  now rewrite (@key_selected _ (expired upload_settings current_time) _ Hnd
                 kv Hin).
Qed.

(** ** Saving an upload *)

Lemma chunks_concat (size : nat) :
  0 < size ->
  forall fuel content, length content <= fuel ->
  concat (chunks fuel size content) = content.
Proof.
  intros Hsize. induction fuel as [|fuel IH]; intros content Hlen.
  - destruct content; [reflexivity | simpl in Hlen; lia].
  - destruct content as [|b content]; [reflexivity|].
    cbn [chunks concat]. rewrite IH.
    + apply firstn_skipn.
    + rewrite length_skipn. cbn [length] in *. lia.
Qed.

Lemma read_chunks_concat (file : UploadFile) :
  concat (read_chunks file) = content file.
Proof.
  unfold read_chunks. apply chunks_concat; [apply Pos2Nat.is_pos | apply Nat.le_refl].
Qed.

(** What a step leaves alone: the dictionary, the services and the
    identifiers drawn. *)
Definition same_store (sv sv' : server) : Prop :=
  temp_files sv' = temp_files sv /\ service sv' = service sv
  /\ draws sv' = draws sv.

Lemma same_store_refl (sv : server) : same_store sv sv.
Proof. now repeat split. Qed.

Lemma same_store_trans (a b c : server) :
  same_store a b -> same_store b c -> same_store a c.
Proof. unfold same_store. intuition congruence. Qed.

Lemma disk_op_same (host : Host) (sv : server) :
  same_store sv (snd (disk_op host sv)).
Proof. unfold disk_op. destruct (os_error host (ops sv)); now repeat split. Qed.

Lemma write_cases (host : Host) (p : str) (chunk : list Byte.byte)
    (sv : server) :
  write host p chunk sv
  = match os_error host (ops sv) with
    | None =>
        (Returned tt,
         mkServer (service sv) (temp_files sv)
           (match dict_lookup p (disk sv) with
            | Some old => dict_store p (old ++ chunk) (disk sv)
            | None => dict_store p chunk (disk sv)
            end) (draws sv) (S (ops sv)))
    | Some msg =>
        (Raised (OSError match os_error host (S (ops sv)) with
                         | Some msg' => msg'
                         | None => msg
                         end),
         mkServer (service sv) (temp_files sv) (disk sv) (draws sv)
           (S (S (ops sv))))
    end.
Proof.
  unfold write, close, disk_op, update_disk.
  destruct (os_error host (ops sv)); simpl; [|reflexivity].
  now destruct (os_error host (S (ops sv))).
Qed.

Section Saving.
Variable world : World.
Variable upload_settings : UploadSettings.
Variable host : Host.

(** The loop touches neither the dictionary nor the services, and raises
    an [OSError] or the 413 error only. *)
Lemma write_chunks_frame (p : str) (todo : list (list Byte.byte)) :
  forall total sv,
  same_store sv (snd (write_chunks upload_settings host p todo total sv))
  /\ match fst (write_chunks upload_settings host p todo total sv) with
     | Returned _ => True
     | Raised e =>
         (exists msg, e = OSError msg)
         \/ (e = too_large upload_settings host
             /\ (MAX_FILE_SIZE upload_settings
                 < Z.of_nat (total + length (concat todo)))%Z)
     end.
Proof.
  induction todo as [|chunk todo IH]; intros total sv; cbn [write_chunks].
  - split; [apply same_store_refl | exact I].
  - destruct (Z.ltb (MAX_FILE_SIZE upload_settings)
                (Z.of_nat (total + length chunk))) eqn:Hbig.
    + apply Z.ltb_lt in Hbig.
      unfold iobind, close, unlink, iobind, disk_op, update_disk, throw.
      destruct (os_error host (ops sv)); simpl;
        [split; [now repeat split | eauto]|].
      destruct (os_error host (S (ops sv))); simpl;
        (split; [now repeat split|]); [eauto|].
      right. split; [reflexivity|].
      rewrite length_app. lia.
    + unfold iobind. rewrite write_cases.
      destruct (os_error host (ops sv)); simpl;
        [split; [now repeat split | eauto]|].
      match goal with
      | |- context [write_chunks _ _ _ _ ?t ?s] =>
          destruct (IH t s) as (Hs & He)
      end.
      split.
      * eapply same_store_trans; [|exact Hs]. now repeat split.
      * destruct (fst _); [exact I|].
        destruct He as [He|(He & Hlt)]; [now left | right].
        split; [exact He|]. simpl. rewrite length_app. lia.
Qed.

(** When the loop ends, everything was written and the limit was never
    passed. *)
Lemma write_chunks_done (p : str) (todo : list (list Byte.byte)) :
  forall total sv sv' old,
  dict_lookup p (disk sv) = Some old ->
  write_chunks upload_settings host p todo total sv = (Returned tt, sv') ->
  dict_lookup p (disk sv') = Some (old ++ concat todo)
  /\ (todo = []
      \/ (Z.of_nat (total + length (concat todo))
          <= MAX_FILE_SIZE upload_settings)%Z).
Proof.
  induction todo as [|chunk todo IH]; intros total sv sv' old Hold;
    cbn [write_chunks].
  - unfold pure. intros [= <-]. rewrite app_nil_r. auto.
  - destruct (Z.ltb (MAX_FILE_SIZE upload_settings)
                (Z.of_nat (total + length chunk))) eqn:Hbig.
    + unfold iobind, close, unlink, iobind, disk_op, update_disk, throw.
      destruct (os_error host (ops sv)); simpl; [discriminate|].
      destruct (os_error host (S (ops sv))); discriminate.
    + apply Z.ltb_ge in Hbig.
      unfold iobind. rewrite write_cases.
      destruct (os_error host (ops sv)); [discriminate|].
      rewrite Hold. intros H.
      eapply IH in H; [|simpl; apply lookup_store_same].
      destruct H as (Hd & Hle). rewrite <- app_assoc in Hd.
      split; [exact Hd|]. right.
      destruct Hle as [-> | Hle]; simpl.
      * rewrite app_nil_r. exact Hbig.
      * rewrite length_app. lia.
Qed.

(** What [save_temp_file] does, by its outcome. *)
Lemma save_temp_file_outcome (file : UploadFile) (sv : server) :
  let r := fst (save_temp_file world upload_settings host file sv) in
  let sv' := snd (save_temp_file world upload_settings host file sv) in
  calls (service sv') = calls (service sv)
  /\ match r with
     | Returned temp_file =>
         temp_files sv'
         = dict_store (file_id temp_file) temp_file (temp_files sv)
         /\ file_id temp_file = uuid host (draws sv)
         /\ validate_file_type upload_settings host (filename file)
            = Returned (file_extension temp_file)
         /\ original_filename temp_file
            = sanitize_filename host (filename file)
         /\ file_path temp_file
            = path_join host (TEMP_DIR upload_settings)
                (file_id temp_file ++ file_extension temp_file)
         /\ created_at temp_file = clock world (readings (service sv))
         /\ dict_lookup (file_path temp_file) (disk sv')
            = Some (content file)
         /\ (content file = []
             \/ (Z.of_nat (length (content file))
                 <= MAX_FILE_SIZE upload_settings)%Z)
     | Raised e =>
         temp_files sv' = temp_files sv
         /\ ((exists msg, e = OSError msg)
             \/ (e = too_large upload_settings host
                 /\ (MAX_FILE_SIZE upload_settings
                     < Z.of_nat (length (content file)))%Z)
             \/ (exists detail,
                   e = HTTPException 400 detail
                   /\ validate_file_type upload_settings host (filename file)
                      = Raised e))
     end.
Proof.
  unfold save_temp_file, iobind, of_outcome.
  destruct (validate_file_type upload_settings host (filename file))
    as [ext|e] eqn:Hval.
  2:{ simpl. repeat split. right. right.
      unfold validate_file_type in Hval.
      destruct (negb _); [|discriminate]. injection Hval as <-. eauto. }
  unfold uuid4, ensure_temp_dir, iobind, disk_op, pure. cbn [fst snd ops draws].
  destruct (os_error host (ops sv)) as [msg|]; [simpl; eauto 6|].
  unfold open_wb, iobind, disk_op, update_disk. cbn [fst snd ops draws].
  destruct (os_error host (S (ops sv))) as [msg|]; [simpl; eauto 6|].
  cbn [service temp_files disk draws ops].
  set (p := path_join host (TEMP_DIR upload_settings)
              (uuid host (draws sv) ++ ext)).
  set (sv1 := mkServer (service sv) (temp_files sv)
                (dict_store p [] (disk sv)) (S (draws sv)) (S (S (ops sv)))).
  pose proof (write_chunks_frame p (read_chunks file) 0 sv1) as (Hsame & Herr).
  pose proof (@write_chunks_done p (read_chunks file) 0 sv1) as Hdone.
  destruct (write_chunks upload_settings host p (read_chunks file) 0 sv1)
    as [[[]|e] sv2] eqn:Hw; cbn [fst snd] in *.
  2:{ destruct Hsame as (Ht & Hs & _). rewrite Hs, Ht. simpl.
      repeat split. destruct Herr as [Herr|(He & Hlt)]; [now left|].
      right. left. split; [exact He|].
      now rewrite read_chunks_concat in Hlt. }
  destruct (Hdone sv2 [] (lookup_store_same p [] (disk sv)) eq_refl)
    as (Hdisk & Hsize).
  rewrite read_chunks_concat in Hdisk, Hsize. simpl in Hdisk, Hsize.
  destruct Hsame as (Ht & Hs & Hd).
  unfold close, disk_op.
  destruct (os_error host (ops sv2)) as [msg|]; cbn [fst snd].
  { simpl. rewrite Hs, Ht. simpl. eauto 6. }
  unfold time_time, lift_service, Service.time_time, update_temp_files.
  cbn [fst snd service temp_files disk draws ops file_id file_extension
       original_filename file_path created_at calls readings].
  rewrite Hs, Ht. cbn [service temp_files calls readings].
  repeat split; try reflexivity; try assumption.
  destruct Hsize as [Hsize|Hsize]; [left | now right].
  unfold read_chunks in Hsize.
  destruct (content file); [reflexivity | discriminate].
Qed.

(** X17. When [save_temp_file] returns, the file it returns is the entry
    of its identifier in the dictionary ([get_temp_file] finds it); the
    identifier is the one drawn; the extension is one of
    [ALLOWED_FILE_TYPES]; the name is the sanitized upload name; the
    creation time is the clock reading; the file on disk holds the whole
    upload; and the upload is empty or within [MAX_FILE_SIZE]. *)
Theorem saved_file_is_registered
    (file : UploadFile) (sv sv' : server) (temp_file : TempFile) :
  save_temp_file world upload_settings host file sv
  = (Returned temp_file, sv') ->
  get_temp_file (file_id temp_file) sv' = Some temp_file
  /\ file_id temp_file = uuid host (draws sv)
  /\ In (file_extension temp_file) (ALLOWED_FILE_TYPES upload_settings)
  /\ original_filename temp_file = sanitize_filename host (filename file)
  /\ created_at temp_file = clock world (readings (service sv))
  /\ dict_lookup (file_path temp_file) (disk sv') = Some (content file)
  /\ (content file = []
      \/ (Z.of_nat (length (content file))
          <= MAX_FILE_SIZE upload_settings)%Z).
Proof.
  intros H. pose proof (save_temp_file_outcome file sv) as (_ & Hout).
  rewrite H in Hout. cbn [fst snd] in Hout.
  destruct Hout as (Hst & Hid & Hval & Hname & _ & Hat & Hdisk & Hsize).
  repeat split; auto.
  - unfold get_temp_file. rewrite Hst. apply lookup_store_same.
  - unfold validate_file_type in Hval.
    destruct (existsb _ _) eqn:E; [|discriminate]. simpl in Hval.
    injection Hval as <-.
    apply existsb_exists in E. destruct E as (t & Hin & Heq).
    apply str_eqb_eq in Heq. now rewrite Heq.
Qed.

(** ** The size limit, on a disk that does not fail *)

Lemma write_chunks_reliable (p : str) (todo : list (list Byte.byte)) :
  (forall n, os_error host n = None) ->
  forall total sv old,
  dict_lookup p (disk sv) = Some old ->
  (Z.of_nat total <= MAX_FILE_SIZE upload_settings)%Z ->
  let r := fst (write_chunks upload_settings host p todo total sv) in
  let sv' := snd (write_chunks upload_settings host p todo total sv) in
  if (Z.of_nat (total + length (concat todo))
      <=? MAX_FILE_SIZE upload_settings)%Z
  then r = Returned tt
       /\ disk sv' = dict_store p (old ++ concat todo) (disk sv)
  else r = Raised (too_large upload_settings host)
       /\ disk sv' = dict_pop p (disk sv).
Proof.
  intros Hok. induction todo as [|chunk todo IH]; intros total sv old Hold Hle;
    cbn [write_chunks concat].
  - simpl. rewrite Nat.add_0_r, app_nil_r.
    apply Z.leb_le in Hle. rewrite Hle. split; [reflexivity|].
    symmetry. now apply store_same.
  - rewrite length_app.
    destruct (Z.ltb (MAX_FILE_SIZE upload_settings)
                (Z.of_nat (total + length chunk))) eqn:Hbig.
    + apply Z.ltb_lt in Hbig.
      destruct (Z.leb_spec
                  (Z.of_nat (total + (length chunk + length (concat todo))))
                  (MAX_FILE_SIZE upload_settings)); [lia|].
      unfold iobind, close, unlink, iobind, disk_op, update_disk, throw.
      rewrite !Hok. simpl. rewrite ?Hok. simpl. auto.
    + apply Z.ltb_ge in Hbig.
      unfold iobind. rewrite write_cases, Hok, Hold.
      match goal with
      | |- context [write_chunks _ _ _ _ ?t ?s] =>
          specialize (IH t s (old ++ chunk))
      end.
      cbn [disk] in IH.
      specialize (IH (lookup_store_same p _ (disk sv)) Hbig).
      rewrite Nat.add_assoc.
      destruct (Z.leb _ _); destruct IH as (Hr & Hd); split; auto.
      * rewrite Hd, store_store. now rewrite app_assoc.
      * rewrite Hd. apply pop_store_any.
Qed.

(** X18. The size check by chunks is a check of the whole size.  On a
    disk where no operation fails, with an allowed file type and a limit
    that is not negative, [save_temp_file] returns exactly when the upload
    has [MAX_FILE_SIZE] bytes at most, and the file then holds all of
    them; a longer upload raises the 413 error, leaves no file at the path
    and leaves the dictionary as it was. *)
Theorem upload_size_limit
    (file : UploadFile) (sv : server) (file_extension : str) :
  (forall n, os_error host n = None) ->
  validate_file_type upload_settings host (filename file)
  = Returned file_extension ->
  (0 <= MAX_FILE_SIZE upload_settings)%Z ->
  let file_path :=
    path_join host (TEMP_DIR upload_settings)
      (uuid host (draws sv) ++ file_extension) in
  let r := fst (save_temp_file world upload_settings host file sv) in
  let sv' := snd (save_temp_file world upload_settings host file sv) in
  if (Z.of_nat (length (content file)) <=? MAX_FILE_SIZE upload_settings)%Z
  then (exists temp_file, r = Returned temp_file)
       /\ disk sv' = dict_store file_path (content file) (disk sv)
  else r = Raised (too_large upload_settings host)
       /\ disk sv' = dict_pop file_path (disk sv)
       /\ temp_files sv' = temp_files sv.
Proof.
  intros Hok Hval Hmax p r sv'. subst r sv'.
  unfold save_temp_file, iobind, of_outcome. rewrite Hval.
  unfold uuid4, ensure_temp_dir, iobind, disk_op, pure.
  cbn [fst snd ops draws]. rewrite Hok.
  unfold open_wb, iobind, disk_op, update_disk. cbn [fst snd ops draws].
  rewrite Hok. cbn [service temp_files disk draws ops]. fold p.
  set (sv1 := mkServer (service sv) (temp_files sv)
                (dict_store p [] (disk sv)) (S (draws sv)) (S (S (ops sv)))).
  pose proof (write_chunks_frame p (read_chunks file) 0 sv1) as (Hsame & _).
  pose proof (@write_chunks_reliable p (read_chunks file) Hok 0 sv1 []
                (lookup_store_same p [] (disk sv)) Hmax) as Hrel.
  cbn zeta in Hrel. rewrite read_chunks_concat in Hrel. simpl in Hrel.
  destruct (write_chunks upload_settings host p (read_chunks file) 0 sv1)
    as [r sv2]; cbn [fst snd] in *.
  destruct Hsame as (Ht & Hs & Hd).
  destruct (Z.leb _ _); destruct Hrel as (-> & Hdisk).
  - unfold close, disk_op. rewrite Hok.
    unfold time_time, lift_service, Service.time_time, update_temp_files.
    cbn [fst snd service temp_files disk draws ops].
    split; [eauto|]. rewrite Hdisk. apply store_store.
  - cbn [fst snd]. rewrite Hdisk, Ht. repeat split. apply pop_store_any.
Qed.

(** On a disk that does not fail, a save leaves the file with its whole
    content, or no file at its path. *)
Lemma write_chunks_disk (p : str) (todo : list (list Byte.byte)) :
  (forall n, os_error host n = None) ->
  forall total sv old,
  dict_lookup p (disk sv) = Some old ->
  let r := fst (write_chunks upload_settings host p todo total sv) in
  let sv' := snd (write_chunks upload_settings host p todo total sv) in
  (r = Returned tt /\ disk sv' = dict_store p (old ++ concat todo) (disk sv))
  \/ (r = Raised (too_large upload_settings host)
      /\ disk sv' = dict_pop p (disk sv)).
Proof.
  intros Hok. induction todo as [|chunk todo IH]; intros total sv old Hold;
    cbn [write_chunks concat].
  - left. simpl. rewrite app_nil_r. split; [reflexivity|].
    symmetry. now apply store_same.
  - destruct (Z.ltb (MAX_FILE_SIZE upload_settings)
                (Z.of_nat (total + length chunk))).
    + right.
      unfold iobind, close, unlink, iobind, disk_op, update_disk, throw.
      rewrite !Hok. simpl. rewrite ?Hok. simpl. auto.
    + unfold iobind. rewrite write_cases, Hok, Hold.
      match goal with
      | |- context [write_chunks _ _ _ _ ?t ?s] =>
          specialize (IH t s (old ++ chunk))
      end.
      cbn [disk] in IH.
      specialize (IH (lookup_store_same p _ (disk sv))).
      destruct IH as [(Hr & Hd)|(Hr & Hd)]; [left | right];
        (split; [exact Hr|]); rewrite Hd.
      * rewrite store_store. now rewrite app_assoc.
      * apply pop_store_any.
Qed.

Lemma save_temp_file_disk (file : UploadFile) (sv : server) :
  (forall n, os_error host n = None) ->
  let sv' := snd (save_temp_file world upload_settings host file sv) in
  match fst (save_temp_file world upload_settings host file sv) with
  | Returned temp_file =>
      disk sv' = dict_store (file_path temp_file) (content file) (disk sv)
  | Raised _ => disk sv' = disk sv \/ exists p, disk sv' = dict_pop p (disk sv)
  end.
Proof.
  intros Hok. unfold save_temp_file, iobind, of_outcome.
  destruct (validate_file_type upload_settings host (filename file))
    as [ext|e]; [|now left].
  unfold uuid4, ensure_temp_dir, iobind, disk_op, pure.
  cbn [fst snd ops draws]. rewrite Hok.
  unfold open_wb, iobind, disk_op, update_disk. cbn [fst snd ops draws].
  rewrite Hok. cbn [service temp_files disk draws ops].
  set (p := path_join host (TEMP_DIR upload_settings)
              (uuid host (draws sv) ++ ext)).
  set (sv1 := mkServer (service sv) (temp_files sv)
                (dict_store p [] (disk sv)) (S (draws sv)) (S (S (ops sv)))).
  pose proof (@write_chunks_disk p (read_chunks file) Hok 0 sv1 []
                (lookup_store_same p [] (disk sv))) as Hrel.
  cbn zeta in Hrel. rewrite read_chunks_concat in Hrel. simpl in Hrel.
  destruct (write_chunks upload_settings host p (read_chunks file) 0 sv1)
    as [r sv2]; cbn [fst snd] in *.
  destruct Hrel as [(-> & Hdisk)|(-> & Hdisk)].
  - unfold close, disk_op. rewrite Hok.
    unfold time_time, lift_service, Service.time_time, update_temp_files.
    cbn [fst snd service temp_files disk draws ops file_path].
    rewrite Hdisk. apply store_store.
  - cbn [fst snd]. right. exists p. rewrite Hdisk. apply pop_store_any.
Qed.

End Saving.

(** ** A host and a server for the examples *)

(** A suffix in the simplest way: what follows the last dot, with it. *)
Definition simple_suffix (name : str) : str :=
  if existsb (N.eqb 46) name then 46%N :: rev (upto 46%N (rev name)) else [].

Definition example_host : Host :=
  mkHost (fun n => of_string "upload-" ++ str_of_nat n)
         (fun _ => None)
         simple_suffix
         (fun dir name => dir ++ [47%N] ++ name)
         (fun _ => false)
         (fun _ => of_string "0.0")
         (fun _ => Err (SdkError (of_string "not a Word file")))
         (fun _ => Ok [mkPage (of_string "Jane Roe, MRN 12345") []])
         (fun _ => Invalid (of_string "Expecting value"))
         (fun _ => []).

(** Uploads of four bytes at most, kept for a minute. *)
Definition example_upload_settings : UploadSettings :=
  mkUploadSettings 4 60 (of_string "/tmp/anonymizer")
    [of_string ".docx"; of_string ".pdf"].

Definition example_server : server := mkServer st0 [] [] 0 0.

Definition scan (data : list Byte.byte) : UploadFile :=
  mkUploadFile (of_string "scan.PDF") data.

(** [sanitize_filename] on some names. *)
Example sanitize_filename_examples :
  sanitize_filename example_host (of_string "../../etc/pass wd?<>.pdf")
  = of_string "pass wd.pdf"
  /\ sanitize_filename example_host (of_string "reports/") = []
  /\ sanitize_filename example_host (of_string "..") = of_string "..".
Proof. repeat split. Qed.

Lemma saved_file_is_registered_witness :
  exists temp_file sv',
    save_temp_file ok_world example_upload_settings example_host
      (scan [Byte.x25; Byte.x50; Byte.x44]) example_server
    = (Returned temp_file, sv')
    /\ get_temp_file (file_id temp_file) sv' = Some temp_file
    /\ file_id temp_file = of_string "upload-0"
    /\ In (file_extension temp_file)
         (ALLOWED_FILE_TYPES example_upload_settings)
    /\ original_filename temp_file = of_string "scan.PDF"
    /\ created_at temp_file = 0%Q
    /\ dict_lookup (file_path temp_file) (disk sv')
       = Some [Byte.x25; Byte.x50; Byte.x44].
Proof.
  eexists. eexists. split; [vm_compute; reflexivity|].
  edestruct (@saved_file_is_registered ok_world example_upload_settings
               example_host (scan [Byte.x25; Byte.x50; Byte.x44])
               example_server)
    as (H1 & H2 & H3 & H4 & H5 & H6 & _); [vm_compute; reflexivity|].
  exact (conj H1 (conj H2 (conj H3 (conj H4 (conj H5 H6))))).
Defined.

Lemma upload_size_limit_witness :
  let file := scan [Byte.x25; Byte.x50; Byte.x44; Byte.x46; Byte.x2d] in
  let run := save_temp_file ok_world example_upload_settings example_host
               file example_server in
  fst run = Raised (too_large example_upload_settings example_host)
  /\ disk (snd run) = []
  /\ temp_files (snd run) = [].
Proof.
  intros file run.
  apply (@upload_size_limit ok_world example_upload_settings example_host
           file example_server (of_string ".pdf")).
  - reflexivity.
  - vm_compute. reflexivity.
  - vm_compute. discriminate.
Defined.

Lemma cleanup_old_files_keeps_fresh_witness :
  let old := mkTempFile (of_string "a") (of_string "old.pdf")
               (of_string "/tmp/anonymizer/a.pdf") (of_string ".pdf") 0 in
  let new := mkTempFile (of_string "b") (of_string "new.pdf")
               (of_string "/tmp/anonymizer/b.pdf") (of_string ".pdf") 70 in
  let sv := mkServer (mkState [] 100)
              [(of_string "a", old); (of_string "b", new)] [] 2 0 in
  temp_files (snd (cleanup_old_files ok_world example_upload_settings
                     example_host sv))
  = [(of_string "b", new)].
Proof.
  intros old new sv.
  apply (@cleanup_old_files_keeps_fresh ok_world example_upload_settings
           example_host sv).
  repeat constructor; simpl; intuition discriminate.
Defined.

End FileHandlerFacts.

(* ================================================================== *)
(** * The endpoints *)
(* ================================================================== *)

Module ApiFacts.
Import Py Models Config Service DocumentParser FileHandler Api.
Import ServiceFacts ProviderFacts FileHandlerFacts.

(** ** The list of providers *)

(** X19. [get_providers] lists "anthropic", "openai" and "ollama", in
    this order, each with [configured] equal to [available].  A provider
    listed as available is one [get_provider] returns; a hosted provider
    listed as not available is one [get_provider] refuses with a
    [ValueError]. *)
Theorem listed_providers (settings : Settings) :
  map name (get_providers settings) = [anthropic; openai; ollama]
  /\ (forall info, In info (get_providers settings) ->
        configured info = available info)
  /\ (forall info, In info (get_providers settings) ->
        available info = true ->
        exists provider, get_provider settings (name info) = Ok provider)
  /\ (forall info, In info (get_providers settings) ->
        name info <> ollama -> available info = false ->
        exists msg, get_provider settings (name info) = Err (ValueError msg)).
Proof.
  unfold get_providers. repeat split.
  - intros info [<-|[<-|[<-|[]]]]; reflexivity.
  - intros info [<-|[<-|[<-|[]]]]; simpl; intros H; unfold get_provider;
      simpl; rewrite ?H; simpl; eauto.
  - intros info [<-|[<-|[<-|[]]]]; simpl; intros Hn H; unfold get_provider;
      simpl; rewrite ?H; simpl; eauto.
    now contradiction Hn.
Qed.

(** ** The text endpoint *)

(** X20. The text endpoint returns a result that echoes the text of the
    request, or raises an [HTTPException] with status 400 or 500; it
    touches neither the temporary files nor the disk.  When the selection
    of the provider fails, the status is 400, the detail is the message of
    [get_provider], and no network call was made. *)
Theorem text_endpoint_errors
    (prompt : str) (settings : Settings) (world : World) (host : Host)
    (request : AnonymizeTextRequest) (sv : server) :
  let r := fst (Api.anonymize_text prompt settings world host request sv) in
  let sv' := snd (Api.anonymize_text prompt settings world host request sv) in
  match r with
  | Returned result => original_text result = Some (text request)
  | Raised e =>
      exists detail, e = HTTPException 400 detail \/ e = HTTPException 500 detail
  end
  /\ temp_files sv' = temp_files sv /\ disk sv' = disk sv
  /\ forall msg,
       get_provider settings (provider request) = Err (ValueError msg) ->
       r = Raised (HTTPException 400 msg)
       /\ calls (service sv') = calls (service sv).
Proof.
  unfold Api.anonymize_text.
  pose proof (anonymize_text_trace prompt settings world (text request)
                (provider request) (parameters request) (service sv))
    as (_ & Hres).
  pose proof (fun e => @anonymize_text_selection_failed prompt settings world
                (text request) (provider request) (parameters request)
                (service sv) e) as Hsel.
  destruct (Service.anonymize_text prompt settings world (text request)
              (provider request) (parameters request) (service sv))
    as [[res|e] st'] eqn:Hrun; cbn [fst snd] in *.
  - split; [auto|]. split; [reflexivity|]. split; [reflexivity|].
    intros msg Hm. specialize (Hsel _ Hm). discriminate.
  - split; [|split; [|split]].
    + destruct (is_ValueError e); simpl; eauto.
    + destruct (is_ValueError e); reflexivity.
    + destruct (is_ValueError e); reflexivity.
    + intros msg Hm. specialize (Hsel _ Hm). injection Hsel as -> ->.
      split; reflexivity.
Qed.

(** ** A hosted provider that answers with no content *)

(** X21. When Anthropic is selected and its message comes with no
    content block, the text endpoint raises status 500 with the detail
    "Anonymization failed: list index out of range". *)
Theorem empty_content_is_server_error
    (prompt : str) (settings : Settings) (world : World) (host : Host)
    (request : AnonymizeTextRequest) (sv : server) :
  lower (provider request) = anthropic ->
  truthy (ANTHROPIC_API_KEY settings) = true ->
  anthropic_create world
    (chat_request_of prompt settings (ANTHROPIC_API_KEY settings)
       (of_string "claude-3-5-sonnet-20241022") (text request)
       (parameters request))
  = Ok [] ->
  fst (Api.anonymize_text prompt settings world host request sv)
  = Raised (HTTPException 500
              (of_string "Anonymization failed: list index out of range")).
Proof.
  intros Hname Hkey Hanswer.
  unfold Api.anonymize_text, Service.anonymize_text, mbind, Service.time_time,
    lift, get_provider. rewrite Hname. simpl. rewrite Hkey. simpl.
  unfold AnthropicProvider_anonymize, mbind, perform, lift.
  now rewrite Hanswer.
Qed.

Lemma empty_content_is_server_error_witness :
  fst (Api.anonymize_text []
         (mkSettings (of_string "sk-test") []
            (of_string "http://localhost:11434") (of_string "llama2")
            (3 # 10) 8000 1 4096)
         (mkWorld (fun _ => Ok []) (fun _ => Ok []) (fun _ => Ok not_found)
            (fun n => inject_Z (Z.of_nat n)))
         example_host
         (mkAnonymizeTextRequest (of_string "Jane Roe, MRN 12345")
            (of_string "Anthropic") None)
         example_server)
  = Raised (HTTPException 500
              (of_string "Anonymization failed: list index out of range")).
Proof.
  apply empty_content_is_server_error; reflexivity.
Defined.

(** ** What is accepted can be parsed *)

(** X22. With [ALLOWED_FILE_TYPES] holding ".docx" and ".pdf" only, as
    by default, every extension [validate_file_type] returns is one
    [parse_document] handles: the document is read as a Word file or as a
    PDF, and the "Unsupported file type" branch is not taken. *)
Theorem accepted_types_are_parsed
    (upload_settings : UploadSettings) (host : Host)
    (filename file_extension : str) (file : File) :
  (forall t, In t (ALLOWED_FILE_TYPES upload_settings) ->
     t = of_string ".docx" \/ t = of_string ".pdf") ->
  validate_file_type upload_settings host filename = Returned file_extension ->
  parse_document file file_extension
  = if str_eqb file_extension (of_string ".docx")
    then bind (as_docx file) (fun doc => Ok (parse_word doc, false))
    else bind (as_pdf file) (fun doc => Ok (parse_pdf doc false)).
Proof.
  intros Hall Hval. unfold validate_file_type in Hval.
  destruct (existsb _ _) eqn:E; [|discriminate]. simpl in Hval.
  injection Hval as Hext.
  apply existsb_exists in E. destruct E as (t & Hin & Heq).
  apply str_eqb_eq in Heq. rewrite Hext in Heq. subst t.
  destruct (Hall _ Hin) as [-> | ->]; reflexivity.
Qed.

Lemma accepted_types_are_parsed_witness :
  let file := mkFile (Err (SdkError (of_string "not a Word file")))
                (Ok [mkPage (repeat 120%N 500) []]) in
  parse_document file (of_string ".pdf")
  = Ok (parse_pdf [mkPage (repeat 120%N 500) []] false).
Proof.
  intros file.
  apply (@accepted_types_are_parsed example_upload_settings example_host
           (of_string "scan.PDF") (of_string ".pdf") file).
  - intros t [<-|[<-|[]]]; auto.
  - vm_compute. reflexivity.
Defined.

(** ** The upload endpoint *)

Section Upload.
Variable prompt : str.
Variable settings : Settings.
Variable world : World.
Variable upload_settings : UploadSettings.
Variable host : Host.

(** The clauses turn everything into an HTTP error. *)
Lemma handled_http (e : raised) :
  (exists detail, e = HTTPException 400 detail)
  \/ (exists detail, e = HTTPException 413 detail)
  \/ (exists x, e = Exception x) \/ (exists msg, e = OSError msg)
  \/ (exists msg, e = TypeError msg) ->
  exists status detail,
    handled host e = HTTPException status detail
    /\ (status = 400 \/ status = 413 \/ status = 500)%Z
    /\ (status = 413%Z -> exists detail', e = HTTPException 413 detail').
Proof.
  intros [(d & ->)|[(d & ->)|[(x & ->)|[(m & ->)|(m & ->)]]]]; simpl.
  - exists 400%Z, d. repeat split; auto. discriminate.
  - exists 413%Z, d. repeat split; eauto.
  - destruct (is_ValueError x); eexists; eexists; repeat split; auto;
      discriminate.
  - eexists; eexists; repeat split; auto; discriminate.
  - eexists; eexists; repeat split; auto; discriminate.
Qed.

(** What comes after the file is saved touches neither the dictionary
    nor the disk, calls the provider at most once, and only with a text
    that is not blank. *)
Lemma process_frame (temp_file : TempFile) (provider : str)
    (params : option LLMParameters) (sv : server) :
  let r := fst (process prompt settings world host temp_file provider
                  params sv) in
  let sv' := snd (process prompt settings world host temp_file provider
                    params sv) in
  temp_files sv' = temp_files sv /\ disk sv' = disk sv
  /\ (calls (service sv') = calls (service sv) /\ (exists e, r = Raised e)
      \/ exists c text,
           calls (service sv') = calls (service sv) ++ [c]
           /\ carries prompt c text /\ strip text <> [])
  /\ match r with
     | Returned response =>
         filename response = original_filename temp_file
         /\ file_type response = file_extension temp_file
         /\ exists text,
              original_text (result response) = Some text
              /\ strip text <> []
     | Raised e =>
         (exists detail, e = HTTPException 400 detail)
         \/ (exists x, e = Exception x)
     end.
Proof.
  unfold process, iobind, parse_document_at.
  destruct (parse_document _ _) as [[extracted_text ocr]|e]; cbn [fst snd].
  2:{ split; [reflexivity|]. split; [reflexivity|]. split; eauto. }
  destruct (strip extracted_text) as [|c0 rest] eqn:Hstrip; cbn [truthy negb].
  { unfold throw. cbn [fst snd].
    split; [reflexivity|]. split; [reflexivity|]. split; eauto. }
  unfold lift_service.
  pose proof (anonymize_text_trace prompt settings world extracted_text
                provider params (service sv)) as (Hcalls & Hres).
  destruct (Service.anonymize_text prompt settings world extracted_text
              provider params (service sv)) as [[res|e] st'];
    cbn [fst snd service temp_files disk] in *.
  - split; [reflexivity|]. split; [reflexivity|]. split.
    + right. destruct Hcalls as [(_ & e & He)|(c & Hc & Hcar)];
        [discriminate|].
      exists c, extracted_text. rewrite Hstrip.
      split; [exact Hc|]. split; [exact Hcar | discriminate].
    + split; [reflexivity|]. split; [reflexivity|].
      exists extracted_text. rewrite Hstrip. split; [auto | discriminate].
  - split; [reflexivity|]. split; [reflexivity|]. split; [|eauto].
    destruct Hcalls as [(Hc & _)|(c & Hc & Hcar)].
    + left. split; eauto.
    + right. exists c, extracted_text. rewrite Hstrip.
      split; [exact Hc|]. split; [exact Hcar | discriminate].
Qed.

Lemma parse_parameters_raises (parameters : option str) (e : raised) :
  parse_parameters host parameters = Raised e ->
  (exists detail, e = HTTPException 400 detail)
  \/ (exists msg, e = TypeError msg).
Proof.
  unfold parse_parameters. destruct parameters as [p|]; [|discriminate].
  destruct (truthy p); [|discriminate].
  destruct (load_parameters host p); intros [= <-]; eauto.
Qed.

Lemma lookup_pop_sub (V : Type) (k p : str) (d : list (str * V)) (v : V) :
  dict_lookup k (dict_pop p d) = Some v -> dict_lookup k d = Some v.
Proof.
  destruct (str_eqb k p) eqn:E.
  - apply str_eqb_eq in E. subst k. now rewrite lookup_pop_same.
  - rewrite lookup_pop_other; [auto|].
    intros ->. now rewrite str_eqb_refl in E.
Qed.

Lemma lookup_pop_store_sub (V : Type) (k p : str) (d : list (str * V))
    (v w : V) :
  dict_lookup k (dict_pop p (dict_store p w d)) = Some v ->
  dict_lookup k d = Some v.
Proof. rewrite pop_store_any. apply lookup_pop_sub. Qed.

(** On a disk that does not fail, cleaning up a file that is there
    deletes it. *)
Lemma cleanup_file_disk (file_id : str) (temp_file : TempFile)
    (data : list Byte.byte) (sv : server) :
  (forall n, os_error host n = None) ->
  dict_lookup file_id (temp_files sv) = Some temp_file ->
  dict_lookup (file_path temp_file) (disk sv) = Some data ->
  disk (snd (cleanup_file host file_id sv))
  = dict_pop (file_path temp_file) (disk sv).
Proof.
  intros Hok Hid Hdata. unfold cleanup_file. rewrite Hid.
  unfold path_exists. cbn [disk]. rewrite Hdata.
  unfold unlink, iobind, disk_op, update_disk. cbn [ops].
  now rewrite Hok.
Qed.

(** X23. The upload endpoint leaves no temporary file behind, whatever
    its outcome.  Every entry of the dictionary after the request was
    there before it; when the identifier drawn was not in use the
    dictionary is as it was; and, on a disk where no operation fails,
    every file on disk after the request was there before it, with the
    same content. *)
Theorem upload_leaves_nothing
    (file : UploadFile) (provider : str) (parameters : option str)
    (sv : server) :
  let sv' := snd (anonymize_upload prompt settings world upload_settings host
                    file provider parameters sv) in
  (forall file_id temp_file,
     get_temp_file file_id sv' = Some temp_file ->
     get_temp_file file_id sv = Some temp_file)
  /\ (get_temp_file (uuid host (draws sv)) sv = None ->
      temp_files sv' = temp_files sv)
  /\ ((forall n, os_error host n = None) ->
      forall path data,
        dict_lookup path (disk sv') = Some data ->
        dict_lookup path (disk sv) = Some data).
Proof.
  unfold anonymize_upload, get_temp_file.
  destruct (parse_parameters host parameters) as [params|e];
    [|cbn [snd]; auto].
  pose proof (save_temp_file_outcome world upload_settings host file sv)
    as (_ & Hout).
  pose proof (save_temp_file_disk world upload_settings host file sv) as Hdisk.
  destruct (save_temp_file world upload_settings host file sv)
    as [[temp_file|e] sv1]; cbn [fst snd] in *.
  2:{ destruct Hout as (-> & _). repeat split; auto.
      intros Hok path data. destruct (Hdisk Hok) as [-> | (p & ->)]; [auto|].
      apply lookup_pop_sub. }
  destruct Hout as (Hst & Hid & _ & _ & _ & _ & Hfile & _).
  pose proof (process_frame temp_file provider params sv1) as (Ht & Hd & _).
  destruct (process prompt settings world host temp_file provider params sv1)
    as [r sv2]; cbn [fst snd] in *.
  pose proof (cleanup_file_store host (file_id temp_file) sv2)
    as (_ & Hpop & _).
  pose proof (@cleanup_file_disk (file_id temp_file) temp_file (content file)
                sv2) as Hclean.
  destruct (cleanup_file host (file_id temp_file) sv2) as [b sv3];
    cbn [fst snd] in *.
  rewrite Hpop, Ht, Hst. split; [|split].
  - intros k tf. apply lookup_pop_store_sub.
  - rewrite Hid. apply pop_store.
  - intros Hok path data. rewrite Hclean; auto.
    + rewrite Hd, (Hdisk Hok). apply lookup_pop_store_sub.
    + rewrite Ht, Hst. apply lookup_store_same.
    + now rewrite Hd.
Qed.

(** X24. The upload endpoint raises nothing but an [HTTPException] with
    status 400, 413 or 500, and 413 only for an upload longer than
    [MAX_FILE_SIZE].  When it returns, the response names the sanitized
    upload name and an allowed file type, and the original text of
    its result is not blank. *)
Theorem upload_outcome
    (file : UploadFile) (provider : str) (parameters : option str)
    (sv : server) :
  match fst (anonymize_upload prompt settings world upload_settings host
               file provider parameters sv) with
  | Returned response =>
      filename response = sanitize_filename host (FileHandler.filename file)
      /\ In (file_type response) (ALLOWED_FILE_TYPES upload_settings)
      /\ exists text,
           original_text (result response) = Some text /\ strip text <> []
  | Raised e =>
      exists status detail,
        e = HTTPException status detail
        /\ (status = 400 \/ status = 413 \/ status = 500)%Z
        /\ (status = 413%Z ->
            (MAX_FILE_SIZE upload_settings
             < Z.of_nat (length (content file)))%Z)
  end.
Proof.
  unfold anonymize_upload.
  destruct (parse_parameters host parameters) as [params|e] eqn:Hp.
  2:{ cbn [fst]. apply parse_parameters_raises in Hp.
      destruct (@handled_http e) as (status & detail & -> & Hs & H413);
        [tauto|].
      exists status, detail. repeat split; auto.
      intros E. destruct (H413 E) as (d & ->).
      destruct Hp as [(d' & [=])|(m & [=])]. }
  pose proof (save_temp_file_outcome world upload_settings host file sv)
    as (_ & Hout).
  destruct (save_temp_file world upload_settings host file sv)
    as [[temp_file|e] sv1] eqn:Hsave; cbn [fst snd] in *.
  2:{ destruct Hout as (_ & Hcases).
      destruct (@handled_http e) as (status & detail & -> & Hs & H413).
      { destruct Hcases as [(m & ->)|[(-> & _)|(d & -> & _)]]; eauto 6.
        right. left. unfold too_large. eauto. }
      exists status, detail. repeat split; auto.
      intros E. destruct (H413 E) as (d & ->).
      destruct Hcases as [(m & [=])|[(_ & Hlt)|(d' & [=] & _)]]. exact Hlt. }
  destruct Hout as (_ & _ & Hval & Hname & _).
  pose proof (process_frame temp_file provider params sv1)
    as (_ & _ & _ & Hr).
  destruct (process prompt settings world host temp_file provider params sv1)
    as [r sv2]; cbn [fst snd] in *.
  destruct (cleanup_file host (file_id temp_file) sv2) as [b sv3].
  cbn [fst]. destruct r as [response|e].
  - destruct Hr as (-> & -> & Htext). split; [exact Hname|].
    split; [|exact Htext].
    unfold validate_file_type in Hval.
    destruct (existsb _ _) eqn:E; [|discriminate]. simpl in Hval.
    injection Hval as <-.
    apply existsb_exists in E. destruct E as (t & Hin & Heq).
    apply str_eqb_eq in Heq. now rewrite Heq.
  - destruct (@handled_http e) as (status & detail & -> & Hs & H413);
      [tauto|].
    exists status, detail. repeat split; auto.
    intros E. destruct (H413 E) as (d & ->).
    destruct Hr as [(d' & [=])|(x & [=])].
Qed.

(** X25. The upload endpoint calls a provider once at most, and the call
    carries a text that is not blank; when it makes no call it raises an
    error. *)
Theorem upload_sends_text_once
    (file : UploadFile) (provider : str) (parameters : option str)
    (sv : server) :
  let r := fst (anonymize_upload prompt settings world upload_settings host
                  file provider parameters sv) in
  let sv' := snd (anonymize_upload prompt settings world upload_settings host
                    file provider parameters sv) in
  (calls (service sv') = calls (service sv) /\ exists e, r = Raised e)
  \/ exists c text,
       calls (service sv') = calls (service sv) ++ [c]
       /\ carries prompt c text /\ strip text <> [].
Proof.
  unfold anonymize_upload.
  destruct (parse_parameters host parameters) as [params|e];
    [|cbn [fst snd]; eauto].
  pose proof (save_temp_file_outcome world upload_settings host file sv)
    as (Hcalls & _).
  destruct (save_temp_file world upload_settings host file sv)
    as [[temp_file|e] sv1]; cbn [fst snd] in *; [|eauto].
  pose proof (process_frame temp_file provider params sv1)
    as (_ & _ & Hp & _).
  destruct (process prompt settings world host temp_file provider params sv1)
    as [r sv2]; cbn [fst snd] in *.
  pose proof (cleanup_file_store host (file_id temp_file) sv2)
    as (_ & _ & Hs).
  destruct (cleanup_file host (file_id temp_file) sv2) as [b sv3];
    cbn [fst snd] in *.
  rewrite Hs, <- Hcalls.
  destruct Hp as [(Hc & e & ->)|Hp]; [left; eauto | right; exact Hp].
Qed.

(** ** Requests that stop early *)

(** X26. The upload endpoint stops before it does anything when the
    request is wrong: parameters that are no valid JSON or do not validate
    give status 400 with the detail "Invalid parameters: ..."; parameters
    that are JSON but no object give status 500; a file type that is not
    allowed gives status 400 with the list of the allowed types.  In the
    three cases the state of the server is what it was: no identifier
    drawn, no disk operation, no call. *)
Theorem upload_rejected_early
    (file : UploadFile) (provider : str) (parameters : option str)
    (sv : server) :
  let run := anonymize_upload prompt settings world upload_settings host
               file provider parameters sv in
  (forall p msg,
     parameters = Some p -> p <> [] ->
     load_parameters host p = Invalid msg ->
     run = (Raised (HTTPException 400
                      (of_string "Invalid parameters: " ++ msg)), sv))
  /\ (forall p msg,
      parameters = Some p -> p <> [] ->
      load_parameters host p = NotAnObject msg ->
      run = (Raised (HTTPException 500
                       (of_string "File processing failed: " ++ msg)), sv))
  /\ (forall params e,
      parse_parameters host parameters = Returned params ->
      validate_file_type upload_settings host (FileHandler.filename file)
      = Raised e ->
      run = (Raised (HTTPException 400
                       (of_string "File type not allowed. Allowed types: "
                        ++ join (of_string ", ")
                             (ALLOWED_FILE_TYPES upload_settings))), sv)).
Proof.
  intros run. subst run. unfold anonymize_upload.
  split; [|split].
  - intros p msg -> Hp Hload. unfold parse_parameters.
    destruct p; [contradiction|]. simpl. now rewrite Hload.
  - intros p msg -> Hp Hload. unfold parse_parameters.
    destruct p; [contradiction|]. simpl. now rewrite Hload.
  - intros params e -> Hval.
    unfold save_temp_file, iobind, of_outcome. rewrite Hval.
    unfold validate_file_type in Hval.
    destruct (negb _); [|discriminate]. now injection Hval as <-.
Qed.

(** ** A document with no text *)

(** X27. When the text extracted from an upload is blank, the upload
    endpoint raises status 400 with the detail "No text could be extracted
    from the document", calls no provider, and leaves no entry for the
    file in the dictionary. *)
Theorem blank_document_is_refused
    (file : UploadFile) (provider : str) (parameters : option str)
    (params : option LLMParameters) (sv sv1 : server) (temp_file : TempFile)
    (extracted_text : str) (used_ocr : bool) :
  parse_parameters host parameters = Returned params ->
  save_temp_file world upload_settings host file sv
  = (Returned temp_file, sv1) ->
  parse_document
    (mkFile (open_docx host (Some (content file)))
            (open_pdf host (Some (content file))))
    (file_extension temp_file)
  = Ok (extracted_text, used_ocr) ->
  strip extracted_text = [] ->
  let run := anonymize_upload prompt settings world upload_settings host
               file provider parameters sv in
  fst run
  = Raised (HTTPException 400
              (of_string "No text could be extracted from the document"))
  /\ calls (service (snd run)) = calls (service sv)
  /\ get_temp_file (file_id temp_file) (snd run) = None.
Proof.
  intros Hparams Hsave Hparse Hblank run. subst run.
  pose proof (save_temp_file_outcome world upload_settings host file sv)
    as (Hcalls & Hout).
  unfold anonymize_upload. rewrite Hparams.
  rewrite Hsave in *. cbn [fst snd] in *.
  destruct Hout as (_ & _ & _ & _ & _ & _ & Hdisk & _).
  unfold process, iobind, parse_document_at. rewrite Hdisk, Hparse.
  rewrite Hblank. cbn [truthy negb]. unfold throw.
  pose proof (cleanup_file_store host (file_id temp_file) sv1)
    as (_ & Hpop & Hs).
  destruct (cleanup_file host (file_id temp_file) sv1) as [b sv3];
    cbn [fst snd] in *.
  split; [reflexivity|]. split; [congruence|].
  unfold get_temp_file. rewrite Hpop. apply lookup_pop_same.
Qed.

End Upload.

(** A scanned page on which the OCR reads nothing. *)
Lemma blank_document_is_refused_witness :
  fst (anonymize_upload [] example_settings ok_world example_upload_settings
         example_host (scan [Byte.x25; Byte.x50; Byte.x44])
         (of_string "ollama") None example_server)
  = Raised (HTTPException 400
              (of_string "No text could be extracted from the document")).
Proof.
  edestruct (@blank_document_is_refused [] example_settings ok_world
               example_upload_settings example_host
               (scan [Byte.x25; Byte.x50; Byte.x44]) (of_string "ollama")
               None None example_server) as (H & _);
    [reflexivity | vm_compute; reflexivity | vm_compute; reflexivity
     | reflexivity | exact H].
Defined.

End ApiFacts.
